(** * Lava CSP channels ([lava.magma.compiler.channels.pypychannel])

    A shallow embedding of [pypychannel.py]: the [Proto] descriptor, the
    two ports of a channel with their drain threads, the receive queue,
    the selector and the channel factory.

    Scope of the data model.
    - A NumPy array is its shape, its dtype and its elements in C order.
      The dtypes are the signed integer ones; assigning into a slot
      converts every element the way NumPy's array assignment does for
      integers (two's-complement wrap-around).  Floating dtypes are left
      out.
    - The shared-memory region is kept as the list of its slots; view [i]
      of either port refers to slot [i].  Both ports of a channel are
      built from one [Proto], so their views cover the same bytes.
    - Every thread is a program counter named after the source line it
      is about to execute; one transition executes one statement (one
      semaphore, queue or slot operation).  A blocked statement has no
      transition.
    - Clock readings of [time()] and timeouts are integers (ticks). *)

From Stdlib Require Import ZArith Lia.
From stdpp Require Import base option list gmap strings.

#[local] Open Scope Z_scope.

(** ** Exceptions and results *)

Inductive exn :=
  | AssertionError | AttributeError | IndexError | TypeError | ValueError
  | ZeroDivisionError | Empty | Full | EOFError | KeyboardInterrupt
  | UserException (n : nat).

Inductive result (A : Type) :=
  | Ok (a : A)
  | Raise (e : exn).
Arguments Ok {A} a.
Arguments Raise {A} e.

(** ** NumPy arrays *)

Inductive dtype := int8 | int16 | int32 | int64.

#[global] Instance dtype_eq_dec : EqDecision dtype.
Proof. solve_decision. Defined.

Definition itemsize (t : dtype) : Z :=
  match t with int8 => 1 | int16 => 2 | int32 => 4 | int64 => 8 end.

(** Conversion of an integer to dtype [t]: two's-complement wrap-around. *)
Definition wrap (t : dtype) (z : Z) : Z :=
  let m := 2 ^ (8 * itemsize t) in (z + m / 2) mod m - m / 2.

Definition in_range (t : dtype) (z : Z) : Prop :=
  - 2 ^ (8 * itemsize t - 1) <= z < 2 ^ (8 * itemsize t - 1).

Record ndarray := mk_ndarray {
  shape : list Z;
  dtype_ : dtype;
  data : list Z
}.

#[global] Instance ndarray_eq_dec : EqDecision ndarray.
Proof. solve_decision. Defined.

Definition product (l : list Z) : Z := foldr Z.mul 1 l.

(** [a.astype(t)] *)
Definition astype (t : dtype) (a : ndarray) : ndarray :=
  {| shape := shape a; dtype_ := t; data := wrap t <$> data a |}.

(** A Python number that is either an [int]/[np.int64] or a float holding
    an integral value (the only floats this module computes). *)
Inductive number :=
  | NInt (z : Z)
  | NFloat (z : Z).

Definition number_value (n : number) : Z :=
  match n with NInt z | NFloat z => z end.

(** [np.prod(shape)]: an [np.int64] (wrapping) for a non-empty tuple of
    ints, the float [1.0] for the empty tuple. *)
Definition np_prod (sh : list Z) : number :=
  match sh with
  | [] => NFloat 1
  | _ => NInt (wrap int64 (product sh))
  end.

(** [n * k] for a Python int [k]. *)
Definition number_mul (n : number) (k : Z) : number :=
  match n with
  | NInt z => NInt (wrap int64 (z * k))
  | NFloat z => NFloat (z * k)
  end.

(** ** Proto (lines 23-27): a dataclass without [__post_init__]. *)

Record Proto := mk_Proto {
  proto_shape : list Z;
  proto_dtype : dtype;
  proto_nbytes : number
}.

(** ** Semaphores *)

(** [threading.BoundedSemaphore] *)
Record BoundedSemaphore := mk_sem {
  sem_value : Z;
  sem_initial : Z
}.

Definition BoundedSemaphore_new (value : Z) : result BoundedSemaphore :=
  if value <? 0 then Raise ValueError
  else Ok {| sem_value := value; sem_initial := value |}.

(** [acquire(blocking=False)] *)
Definition sem_try_acquire (s : BoundedSemaphore) : bool * BoundedSemaphore :=
  if 0 <? sem_value s
  then (true, {| sem_value := sem_value s - 1; sem_initial := sem_initial s |})
  else (false, s).

(** [release()] raises [ValueError] when released too many times. *)
Definition sem_release (s : BoundedSemaphore) : result BoundedSemaphore :=
  if sem_initial s <=? sem_value s then Raise ValueError
  else Ok {| sem_value := sem_value s + 1; sem_initial := sem_initial s |}.

(** Observers are callables; a selector installs its bound method
    [_changed]. *)
Inductive callback :=
  | Changed (selector : nat)
  | OtherCallback (n : nat).

#[global] Instance callback_eq_dec : EqDecision callback.
Proof. solve_decision. Defined.

(** The shared-memory region handed out by the allocator: the length of
    its buffer and the contents of its slots. *)
Record SharedMemory := mk_shm {
  buf_len : Z;
  slots : list (list Z)
}.

(** Length of the Python slice [buf[a:b]] of a buffer of length [len]. *)
Definition slice_index (len i : Z) : Z :=
  if i <? 0 then Z.max 0 (i + len) else Z.min i len.

Definition slice_len (len a b : Z) : Z :=
  Z.max 0 (slice_index len b - slice_index len a).

(** [np.ndarray(shape=.., dtype=.., buffer=buf[nbytes*i : nbytes*(i+1)])]:
    the slice bounds must be ints, the slice must be large enough and no
    dimension may be negative.  The view refers to slot [i]. *)
Definition make_view (len : Z) (sh : list Z) (t : dtype) (nbytes : number)
    (i : nat) : result nat :=
  match nbytes with
  | NFloat _ => Raise TypeError
  | NInt nb =>
      if slice_len len (nb * Z.of_nat i) (nb * (Z.of_nat i + 1))
           <? itemsize t * product sh
      then Raise TypeError
      else if forallb (fun d => 0 <=? d) sh then Ok i
      else Raise ValueError
  end.

(** The list comprehension of [start]: the first failing view aborts it. *)
Fixpoint make_views (len : Z) (sh : list Z) (t : dtype) (nbytes : number)
    (range : list nat) : result (list nat) :=
  match range with
  | [] => Ok []
  | i :: rest =>
      match make_view len sh t nbytes i with
      | Raise e => Raise e
      | Ok v =>
          match make_views len sh t nbytes rest with
          | Raise e => Raise e
          | Ok vs => Ok (v :: vs)
          end
      end
  end.

(** [range(size)] *)
Definition range (size : Z) : list nat := seq 0 (Z.to_nat size).

(** [l[i]] for a Python list: negative indices count from the end. *)
Definition py_index {A} (l : list A) (i : Z) : result A :=
  let j := if i <? 0 then i + Z.of_nat (length l) else i in
  if j <? 0 then Raise IndexError
  else match l !! Z.to_nat j with
       | Some x => Ok x
       | None => Raise IndexError
       end.

(** ** CspRecvQueue (lines 133-164) *)

Module CspRecvQueue.

(** [queue.Queue]: [maxsize <= 0] means unbounded. *)
Record t := mk {
  maxsize : Z;
  queue : list Z
}.

Definition new (maxsize : Z) : t := {| maxsize := maxsize; queue := [] |}.

Definition qsize (q : t) : Z := Z.of_nat (length (queue q)).

Definition put_nowait (item : Z) (q : t) : result t :=
  if (0 <? maxsize q) && (maxsize q <=? qsize q) then Raise Full
  else Ok {| maxsize := maxsize q; queue := queue q ++ [item] |}.

Definition with_queue (items : list Z) (q : t) : t :=
  {| maxsize := maxsize q; queue := items |}.

(** What a call of [get] comes to: it returns an item, raises, or is
    still inside [not_empty.wait()] when the observed run ends. *)
Inductive outcome :=
  | Got (item : Z) (q : t)
  | Raised (e : exn)
  | Waiting.

(** Lines 159-164, reached with a non-empty queue. *)
Definition take (peek : bool) (q : t) : outcome :=
  match queue q with
  | [] => Raised IndexError
  | item :: rest => if peek then Got item q else Got item (with_queue rest q)
  end.

(** Lines 148-149.  While the caller waits, other threads put items;
    [wakes] lists the contents of the queue found at each return of
    [wait()]. *)
Fixpoint wait_nonempty (wakes : list (list Z)) (q : t) : option t :=
  if qsize q =? 0 then
    match wakes with
    | [] => None
    | w :: wakes' => wait_nonempty wakes' (with_queue w q)
    end
  else Some q.

(** Lines 154-158.  [clock k] is the k-th reading of [time()] made by
    this call (reading 0 computed [endtime]). *)
Fixpoint wait_until (endtime : Z) (clock : nat -> Z) (k : nat)
    (wakes : list (list Z)) (q : t) : outcome + t :=
  if qsize q =? 0 then
    let remaining := endtime - clock k in
    if remaining <=? 0 then inl (Raised Empty)
    else match wakes with
         | [] => inl Waiting
         | w :: wakes' => wait_until endtime clock (S k) wakes' (with_queue w q)
         end
  else inr q.

Definition get (block : bool) (timeout : option Z) (peek : bool)
    (clock : nat -> Z) (wakes : list (list Z)) (q : t) : outcome :=
  if negb block then
    if qsize q =? 0 then Raised Empty else take peek q
  else
    match timeout with
    | None =>
        match wait_nonempty wakes q with
        | None => Waiting
        | Some q' => take peek q'
        end
    | Some timeout =>
        if timeout <? 0 then Raised ValueError
        else
          let endtime := clock 0%nat + timeout in
          match wait_until endtime clock 1 wakes q with
          | inl o => o
          | inr q' => take peek q'
          end
    end.

End CspRecvQueue.

(** ** CspSendPort (lines 30-130) *)

Module CspSendPort.

(** The references [_shm], [_req] and [_ack] designate the objects the
    two ports share; they are fields of the channel state below. *)
Record t := mk {
  _name : string;
  _shape : list Z;
  _dtype : dtype;
  _nbytes : number;
  _size : Z;
  _idx : Z;
  _done : bool;
  _array : list nat;
  _semaphore : option BoundedSemaphore;
  observer : option callback;
  (** the drain thread created last, numbered from 0 *)
  thread : option nat
}.

(** [__init__] (lines 36-61) *)
Definition init (name : string) (proto : Proto) (size : Z) : t :=
  {| _name := name; _shape := proto_shape proto; _dtype := proto_dtype proto;
     _nbytes := proto_nbytes proto; _size := size; _idx := 0; _done := false;
     _array := []; _semaphore := None; observer := None; thread := None |}.

Definition set_idx (i : Z) (p : t) : t :=
  mk (_name p) (_shape p) (_dtype p) (_nbytes p) (_size p) i (_done p)
     (_array p) (_semaphore p) (observer p) (thread p).
Definition set_done (b : bool) (p : t) : t :=
  mk (_name p) (_shape p) (_dtype p) (_nbytes p) (_size p) (_idx p) b
     (_array p) (_semaphore p) (observer p) (thread p).
Definition set_array (a : list nat) (p : t) : t :=
  mk (_name p) (_shape p) (_dtype p) (_nbytes p) (_size p) (_idx p) (_done p)
     a (_semaphore p) (observer p) (thread p).
Definition set_semaphore (s : option BoundedSemaphore) (p : t) : t :=
  mk (_name p) (_shape p) (_dtype p) (_nbytes p) (_size p) (_idx p) (_done p)
     (_array p) s (observer p) (thread p).
Definition set_observer (o : option callback) (p : t) : t :=
  mk (_name p) (_shape p) (_dtype p) (_nbytes p) (_size p) (_idx p) (_done p)
     (_array p) (_semaphore p) o (thread p).
Definition set_thread (th : option nat) (p : t) : t :=
  mk (_name p) (_shape p) (_dtype p) (_nbytes p) (_size p) (_idx p) (_done p)
     (_array p) (_semaphore p) (observer p) th.

Definition next_thread (p : t) : nat :=
  match thread p with None => 0%nat | Some k => S k end.

(** [start] (lines 79-95) over a region whose buffer has length [len].
    An exception leaves the assignments made before it in place. *)
Definition start (len : Z) (p : t) : result unit * t :=
  match make_views len (_shape p) (_dtype p) (_nbytes p) (range (_size p)) with
  | Raise e => (Raise e, p)
  | Ok views =>
      let p1 := set_array views p in
      match BoundedSemaphore_new (_size p) with
      | Raise e => (Raise e, p1)
      | Ok s =>
          (Ok (), set_thread (Some (next_thread p)) (set_semaphore (Some s) p1))
      end
  end.

(** [probe] (lines 108-116) run without interruption: the permit taken
    at line 113 is given back at line 115. *)
Definition probe (p : t) : result bool * t :=
  match _semaphore p with
  | None => (Raise AttributeError, p)
  | Some s =>
      let '(result, s1) := sem_try_acquire s in
      if result then
        match sem_release s1 with
        | Raise e => (Raise e, set_semaphore (Some s1) p)
        | Ok s2 => (Ok true, set_semaphore (Some s2) p)
        end
      else (Ok false, p)
  end.

(** [join] (lines 129-130) *)
Definition join (p : t) : t := set_done true p.

End CspSendPort.

(** ** CspRecvPort (lines 167-273) *)

Module CspRecvPort.

Record t := mk {
  _name : string;
  _shape : list Z;
  _dtype : dtype;
  _nbytes : number;
  _size : Z;
  _idx : Z;
  _done : bool;
  _array : list nat;
  _queue : option CspRecvQueue.t;
  observer : option callback;
  thread : option nat
}.

(** [__init__] (lines 173-198) *)
Definition init (name : string) (proto : Proto) (size : Z) : t :=
  {| _name := name; _shape := proto_shape proto; _dtype := proto_dtype proto;
     _nbytes := proto_nbytes proto; _size := size; _idx := 0; _done := false;
     _array := []; _queue := None; observer := None; thread := None |}.

Definition set_idx (i : Z) (p : t) : t :=
  mk (_name p) (_shape p) (_dtype p) (_nbytes p) (_size p) i (_done p)
     (_array p) (_queue p) (observer p) (thread p).
Definition set_done (b : bool) (p : t) : t :=
  mk (_name p) (_shape p) (_dtype p) (_nbytes p) (_size p) (_idx p) b
     (_array p) (_queue p) (observer p) (thread p).
Definition set_array (a : list nat) (p : t) : t :=
  mk (_name p) (_shape p) (_dtype p) (_nbytes p) (_size p) (_idx p) (_done p)
     a (_queue p) (observer p) (thread p).
Definition set_queue (q : option CspRecvQueue.t) (p : t) : t :=
  mk (_name p) (_shape p) (_dtype p) (_nbytes p) (_size p) (_idx p) (_done p)
     (_array p) q (observer p) (thread p).
Definition set_observer (o : option callback) (p : t) : t :=
  mk (_name p) (_shape p) (_dtype p) (_nbytes p) (_size p) (_idx p) (_done p)
     (_array p) (_queue p) o (thread p).
Definition set_thread (th : option nat) (p : t) : t :=
  mk (_name p) (_shape p) (_dtype p) (_nbytes p) (_size p) (_idx p) (_done p)
     (_array p) (_queue p) (observer p) th.

Definition next_thread (p : t) : nat :=
  match thread p with None => 0%nat | Some k => S k end.

(** [start] (lines 216-232) *)
Definition start (len : Z) (p : t) : result unit * t :=
  match make_views len (_shape p) (_dtype p) (_nbytes p) (range (_size p)) with
  | Raise e => (Raise e, p)
  | Ok views =>
      (Ok (),
       set_thread (Some (next_thread p))
         (set_queue (Some (CspRecvQueue.new (_size p))) (set_array views p)))
  end.

(** [probe] (lines 245-250) *)
Definition probe (p : t) : result bool :=
  match _queue p with
  | None => Raise AttributeError
  | Some q => Ok (0 <? CspRecvQueue.qsize q)
  end.

(** [join] (lines 272-273) *)
Definition join (p : t) : t := set_done true p.

End CspRecvPort.

(** ** A channel and its four threads *)

(** The application thread that owns the send port. *)
Inductive sender_pc :=
  | SenderIdle
  | Send122 (d : ndarray)
  | Send124 (d : ndarray)
  | Send125 (d : ndarray)
  | Send126 (d : ndarray)
  | Send127 (d : ndarray)
  | SendProbe113
  | SendProbe115.

(** The application thread that owns the receive port. *)
Inductive receiver_pc :=
  | ReceiverIdle
  | Recv265
  | Recv266
  | Recv267 (result : ndarray)
  | Recv268 (result : ndarray)
  | Recv270 (result : ndarray)
  | Peek257
  | Peek258
  | Peek259 (result : ndarray)
  | RecvProbe250.

(** The thread running [CspSendPort._ack_callback] (lines 97-106); its
    call of [probe] is lines 113 and 115. *)
Inductive ack_pc :=
  | AckNoThread
  | Ack99
  | Ack100
  | Ack101
  | Ack115
  | Ack102 (not_full : bool)
  | Ack103 (not_full : bool)
  | AckFinished
  | AckDied (e : exn).

(** The thread running [CspRecvPort._req_callback] (lines 234-243). *)
Inductive req_pc :=
  | ReqNoThread
  | Req236
  | Req237
  | Req238
  | Req239 (not_empty : bool)
  | Req240 (not_empty : bool)
  | ReqFinished
  | ReqDied (e : exn).

(** A [PyPyChannel] with the objects its ports share ([shm] and the two
    [multiprocessing.Semaphore]s) and the threads working on it. *)
Record state := mk_state {
  _src_port : CspSendPort.t;
  _dst_port : CspRecvPort.t;
  shm : SharedMemory;
  req : Z;
  ack : Z;
  sender : sender_pc;
  receiver : receiver_pc;
  ack_drain : ack_pc;
  req_drain : req_pc
}.

Definition with_src (p : CspSendPort.t) (s : state) : state :=
  mk_state p (_dst_port s) (shm s) (req s) (ack s)
    (sender s) (receiver s) (ack_drain s) (req_drain s).
Definition with_dst (p : CspRecvPort.t) (s : state) : state :=
  mk_state (_src_port s) p (shm s) (req s) (ack s)
    (sender s) (receiver s) (ack_drain s) (req_drain s).
Definition with_shm (m : SharedMemory) (s : state) : state :=
  mk_state (_src_port s) (_dst_port s) m (req s) (ack s)
    (sender s) (receiver s) (ack_drain s) (req_drain s).
Definition with_req (v : Z) (s : state) : state :=
  mk_state (_src_port s) (_dst_port s) (shm s) v (ack s)
    (sender s) (receiver s) (ack_drain s) (req_drain s).
Definition with_ack (v : Z) (s : state) : state :=
  mk_state (_src_port s) (_dst_port s) (shm s) (req s) v
    (sender s) (receiver s) (ack_drain s) (req_drain s).
Definition with_sender (pc : sender_pc) (s : state) : state :=
  mk_state (_src_port s) (_dst_port s) (shm s) (req s) (ack s)
    pc (receiver s) (ack_drain s) (req_drain s).
Definition with_receiver (pc : receiver_pc) (s : state) : state :=
  mk_state (_src_port s) (_dst_port s) (shm s) (req s) (ack s)
    (sender s) pc (ack_drain s) (req_drain s).
Definition with_ack_drain (pc : ack_pc) (s : state) : state :=
  mk_state (_src_port s) (_dst_port s) (shm s) (req s) (ack s)
    (sender s) (receiver s) pc (req_drain s).
Definition with_req_drain (pc : req_pc) (s : state) : state :=
  mk_state (_src_port s) (_dst_port s) (shm s) (req s) (ack s)
    (sender s) (receiver s) (ack_drain s) pc.

(** What a scheduler may pick: an application thread starting a call when
    it is idle, a thread executing its next statement, the end-of-file
    error of a blocked [acquire] on a cross-process semaphore, and the
    assignments any thread may make ([join], setting [observer]). *)
Inductive label :=
  | CallSend (d : ndarray)
  | CallSendProbe
  | Sender
  | CallRecv
  | CallPeek
  | CallRecvProbe
  | Receiver
  | AckDrain
  | AckEOF
  | ReqDrain
  | ReqEOF
  | JoinSend
  | JoinRecv
  | SetSendObserver (o : option callback)
  | SetRecvObserver (o : option callback).

(** What a transition shows to the outside. *)
Inductive event :=
  | Tau
  | SendReturned (d : ndarray)
  | SendRaised (e : exn)
  | SendProbeReturned (b : bool)
  | RecvReturned (a : ndarray)
  | PeekReturned (a : ndarray)
  | RecvRaised (e : exn)
  | RecvProbeReturned (b : bool)
  | Notified (cb : callback).

(** [self._array[self._idx][:] = data[:]] (line 125).  [data[:]] raises
    [IndexError] on a 0-d array; the shapes are equal here (line 122), so
    the assignment is element-wise, converting to the slot's dtype. *)
Definition write_slot (p : CspSendPort.t) (d : ndarray) (m : SharedMemory)
    : result SharedMemory :=
  match shape d with
  | [] => Raise IndexError
  | _ =>
      match py_index (CspSendPort._array p) (CspSendPort._idx p) with
      | Raise e => Raise e
      | Ok view =>
          Ok {| buf_len := buf_len m;
                slots := <[view := wrap (CspSendPort._dtype p) <$> data d]> (slots m) |}
      end
  end.

(** [self._array[self._idx].copy()] (lines 258 and 266) *)
Definition copy_slot (p : CspRecvPort.t) (m : SharedMemory) : result ndarray :=
  match py_index (CspRecvPort._array p) (CspRecvPort._idx p) with
  | Raise e => Raise e
  | Ok view =>
      match slots m !! view with
      | None => Raise IndexError
      | Some cell =>
          Ok {| shape := CspRecvPort._shape p; dtype_ := CspRecvPort._dtype p;
                data := cell |}
      end
  end.

(** [(idx + 1) % size] *)
Definition advance (idx size : Z) : result Z :=
  if size =? 0 then Raise ZeroDivisionError else Ok ((idx + 1) mod size).

(** The sender's next statement. *)
Definition step_sender (s : state) : option (event * state) :=
  let p := _src_port s in
  match sender s with
  | SenderIdle => None
  | Send122 d =>
      if decide (shape d = CspSendPort._shape p)
      then Some (Tau, with_sender (Send124 d) s)
      else Some (SendRaised AssertionError, with_sender SenderIdle s)
  | Send124 d =>
      match CspSendPort._semaphore p with
      | None => Some (SendRaised AttributeError, with_sender SenderIdle s)
      | Some sem =>
          let '(ok, sem') := sem_try_acquire sem in
          if ok
          then Some (Tau, with_sender (Send125 d)
                            (with_src (CspSendPort.set_semaphore (Some sem') p) s))
          else None
      end
  | Send125 d =>
      match write_slot p d (shm s) with
      | Raise e => Some (SendRaised e, with_sender SenderIdle s)
      | Ok m => Some (Tau, with_sender (Send126 d) (with_shm m s))
      end
  | Send126 d =>
      match advance (CspSendPort._idx p) (CspSendPort._size p) with
      | Raise e => Some (SendRaised e, with_sender SenderIdle s)
      | Ok i => Some (Tau, with_sender (Send127 d)
                             (with_src (CspSendPort.set_idx i p) s))
      end
  | Send127 d =>
      Some (SendReturned d, with_sender SenderIdle (with_req (req s + 1) s))
  | SendProbe113 =>
      match CspSendPort._semaphore p with
      | None => Some (SendRaised AttributeError, with_sender SenderIdle s)
      | Some sem =>
          let '(ok, sem') := sem_try_acquire sem in
          if ok
          then Some (Tau, with_sender SendProbe115
                            (with_src (CspSendPort.set_semaphore (Some sem') p) s))
          else Some (SendProbeReturned false, with_sender SenderIdle s)
      end
  | SendProbe115 =>
      match CspSendPort._semaphore p with
      | None => Some (SendRaised AttributeError, with_sender SenderIdle s)
      | Some sem =>
          match sem_release sem with
          | Raise e => Some (SendRaised e, with_sender SenderIdle s)
          | Ok sem' =>
              Some (SendProbeReturned true,
                    with_sender SenderIdle
                      (with_src (CspSendPort.set_semaphore (Some sem') p) s))
          end
      end
  end.

(** [self._queue.get(peek=..)] with [block=True] and [timeout=None], at
    the moment the scheduler runs it: it goes through when the queue is
    not empty and has no transition while the receiver waits. *)
Definition queue_get (peek : bool) (q : CspRecvQueue.t) : CspRecvQueue.outcome :=
  CspRecvQueue.get true None peek (fun _ => 0) [] q.

(** The receiver's next statement. *)
Definition step_receiver (s : state) : option (event * state) :=
  let p := _dst_port s in
  match receiver s with
  | ReceiverIdle => None
  | Recv265 =>
      match CspRecvPort._queue p with
      | None => Some (RecvRaised AttributeError, with_receiver ReceiverIdle s)
      | Some q =>
          match queue_get false q with
          | CspRecvQueue.Waiting => None
          | CspRecvQueue.Raised e => Some (RecvRaised e, with_receiver ReceiverIdle s)
          | CspRecvQueue.Got _ q' =>
              Some (Tau, with_receiver Recv266
                           (with_dst (CspRecvPort.set_queue (Some q') p) s))
          end
      end
  | Recv266 =>
      match copy_slot p (shm s) with
      | Raise e => Some (RecvRaised e, with_receiver ReceiverIdle s)
      | Ok a => Some (Tau, with_receiver (Recv267 a) s)
      end
  | Recv267 a =>
      match advance (CspRecvPort._idx p) (CspRecvPort._size p) with
      | Raise e => Some (RecvRaised e, with_receiver ReceiverIdle s)
      | Ok i => Some (Tau, with_receiver (Recv268 a)
                             (with_dst (CspRecvPort.set_idx i p) s))
      end
  | Recv268 a => Some (Tau, with_receiver (Recv270 a) (with_ack (ack s + 1) s))
  | Recv270 a => Some (RecvReturned a, with_receiver ReceiverIdle s)
  | Peek257 =>
      match CspRecvPort._queue p with
      | None => Some (RecvRaised AttributeError, with_receiver ReceiverIdle s)
      | Some q =>
          match queue_get true q with
          | CspRecvQueue.Waiting => None
          | CspRecvQueue.Raised e => Some (RecvRaised e, with_receiver ReceiverIdle s)
          | CspRecvQueue.Got _ q' =>
              Some (Tau, with_receiver Peek258
                           (with_dst (CspRecvPort.set_queue (Some q') p) s))
          end
      end
  | Peek258 =>
      match copy_slot p (shm s) with
      | Raise e => Some (RecvRaised e, with_receiver ReceiverIdle s)
      | Ok a => Some (Tau, with_receiver (Peek259 a) s)
      end
  | Peek259 a => Some (PeekReturned a, with_receiver ReceiverIdle s)
  | RecvProbe250 =>
      match CspRecvPort.probe p with
      | Raise e => Some (RecvRaised e, with_receiver ReceiverIdle s)
      | Ok b => Some (RecvProbeReturned b, with_receiver ReceiverIdle s)
      end
  end.

(** [if self.observer and not ready: self.observer()] *)
Definition notify (observer : option callback) (ready : bool) : event :=
  match observer with
  | Some cb => if ready then Tau else Notified cb
  | None => Tau
  end.

(** The next statement of [_ack_callback].  An exception other than
    [EOFError] ends the thread with that exception. *)
Definition step_ack_drain (s : state) : option (event * state) :=
  let p := _src_port s in
  match ack_drain s with
  | AckNoThread | AckFinished | AckDied _ => None
  | Ack99 =>
      if CspSendPort._done p then Some (Tau, with_ack_drain AckFinished s)
      else Some (Tau, with_ack_drain Ack100 s)
  | Ack100 =>
      if 0 <? ack s
      then Some (Tau, with_ack_drain Ack101 (with_ack (ack s - 1) s))
      else None
  | Ack101 =>
      match CspSendPort._semaphore p with
      | None => Some (Tau, with_ack_drain (AckDied AttributeError) s)
      | Some sem =>
          let '(ok, sem') := sem_try_acquire sem in
          if ok
          then Some (Tau, with_ack_drain Ack115
                            (with_src (CspSendPort.set_semaphore (Some sem') p) s))
          else Some (Tau, with_ack_drain (Ack102 false) s)
      end
  | Ack115 =>
      match CspSendPort._semaphore p with
      | None => Some (Tau, with_ack_drain (AckDied AttributeError) s)
      | Some sem =>
          match sem_release sem with
          | Raise e => Some (Tau, with_ack_drain (AckDied e) s)
          | Ok sem' =>
              Some (Tau, with_ack_drain (Ack102 true)
                           (with_src (CspSendPort.set_semaphore (Some sem') p) s))
          end
      end
  | Ack102 not_full =>
      match CspSendPort._semaphore p with
      | None => Some (Tau, with_ack_drain (AckDied AttributeError) s)
      | Some sem =>
          match sem_release sem with
          | Raise e => Some (Tau, with_ack_drain (AckDied e) s)
          | Ok sem' =>
              Some (Tau, with_ack_drain (Ack103 not_full)
                           (with_src (CspSendPort.set_semaphore (Some sem') p) s))
          end
      end
  | Ack103 not_full =>
      Some (notify (CspSendPort.observer p) not_full, with_ack_drain Ack99 s)
  end.

(** The next statement of [_req_callback]. *)
Definition step_req_drain (s : state) : option (event * state) :=
  let p := _dst_port s in
  match req_drain s with
  | ReqNoThread | ReqFinished | ReqDied _ => None
  | Req236 =>
      if CspRecvPort._done p then Some (Tau, with_req_drain ReqFinished s)
      else Some (Tau, with_req_drain Req237 s)
  | Req237 =>
      if 0 <? req s
      then Some (Tau, with_req_drain Req238 (with_req (req s - 1) s))
      else None
  | Req238 =>
      match CspRecvPort.probe p with
      | Raise e => Some (Tau, with_req_drain (ReqDied e) s)
      | Ok b => Some (Tau, with_req_drain (Req239 b) s)
      end
  | Req239 not_empty =>
      match CspRecvPort._queue p with
      | None => Some (Tau, with_req_drain (ReqDied AttributeError) s)
      | Some q =>
          match CspRecvQueue.put_nowait 0 q with
          | Raise e => Some (Tau, with_req_drain (ReqDied e) s)
          | Ok q' =>
              Some (Tau, with_req_drain (Req240 not_empty)
                           (with_dst (CspRecvPort.set_queue (Some q') p) s))
          end
      end
  | Req240 not_empty =>
      Some (notify (CspRecvPort.observer p) not_empty, with_req_drain Req236 s)
  end.

Definition step (l : label) (s : state) : option (event * state) :=
  match l with
  | CallSend d =>
      match sender s with
      | SenderIdle => Some (Tau, with_sender (Send122 d) s)
      | _ => None
      end
  | CallSendProbe =>
      match sender s with
      | SenderIdle => Some (Tau, with_sender SendProbe113 s)
      | _ => None
      end
  | Sender => step_sender s
  | CallRecv =>
      match receiver s with
      | ReceiverIdle => Some (Tau, with_receiver Recv265 s)
      | _ => None
      end
  | CallPeek =>
      match receiver s with
      | ReceiverIdle => Some (Tau, with_receiver Peek257 s)
      | _ => None
      end
  | CallRecvProbe =>
      match receiver s with
      | ReceiverIdle => Some (Tau, with_receiver RecvProbe250 s)
      | _ => None
      end
  | Receiver => step_receiver s
  | AckDrain => step_ack_drain s
  | AckEOF =>
      match ack_drain s with
      | Ack100 => Some (Tau, with_ack_drain AckFinished s)
      | _ => None
      end
  | ReqDrain => step_req_drain s
  | ReqEOF =>
      match req_drain s with
      | Req237 => Some (Tau, with_req_drain ReqFinished s)
      | _ => None
      end
  | JoinSend => Some (Tau, with_src (CspSendPort.join (_src_port s)) s)
  | JoinRecv => Some (Tau, with_dst (CspRecvPort.join (_dst_port s)) s)
  | SetSendObserver o =>
      Some (Tau, with_src (CspSendPort.set_observer o (_src_port s)) s)
  | SetRecvObserver o =>
      Some (Tau, with_dst (CspRecvPort.set_observer o (_dst_port s)) s)
  end.

(** A run under a schedule: the events in order and the state reached;
    [None] when the schedule picks a thread that cannot move. *)
Fixpoint exec (ls : list label) (s : state) : option (list event * state) :=
  match ls with
  | [] => Some ([], s)
  | l :: ls' =>
      match step l s with
      | None => None
      | Some (e, s') =>
          match exec ls' s' with
          | None => None
          | Some (es, s'') => Some (e :: es, s'')
          end
      end
  end.

(** The tensors whose [send] returned, and those [recv] returned. *)
Definition sent (tr : list event) : list ndarray :=
  omap (fun e => match e with SendReturned d => Some d | _ => None end) tr.
Definition received (tr : list event) : list ndarray :=
  omap (fun e => match e with RecvReturned a => Some a | _ => None end) tr.

(** ** PyPyChannel (lines 313-350) *)

Module PyPyChannel.

(** [__init__] (lines 317-342).  [alloc n] stands for
    [message_infrastructure.smm.SharedMemory(n)], which is outside this
    module: it returns a region (the length of its buffer) or raises.  A
    fresh region is zero-filled. *)
Definition init (alloc : Z -> result Z) (src_name dst_name : string)
    (shape : list Z) (dtype : dtype) (size : Z) : result state :=
  let nbytes := number_mul (np_prod shape) (itemsize dtype) in
  match alloc (number_value (number_mul nbytes size)) with
  | Raise e => Raise e
  | Ok len =>
      let shm :=
        {| buf_len := len;
           slots := replicate (Z.to_nat size)
                      (replicate (Z.to_nat (product shape)) 0) |} in
      let proto := mk_Proto shape dtype nbytes in
      Ok (mk_state (CspSendPort.init src_name proto size)
                   (CspRecvPort.init dst_name proto size)
                   shm 0 0 SenderIdle ReceiverIdle AckNoThread ReqNoThread)
  end.

End PyPyChannel.

(** [src_port.start()]: the thread created begins at line 99.  The state
    follows one drain thread per port, the one created last. *)
Definition start_src (s : state) : result unit * state :=
  match CspSendPort.start (buf_len (shm s)) (_src_port s) with
  | (Raise e, p) => (Raise e, with_src p s)
  | (Ok u, p) => (Ok u, with_ack_drain Ack99 (with_src p s))
  end.

(** [dst_port.start()]: the thread created begins at line 236. *)
Definition start_dst (s : state) : result unit * state :=
  match CspRecvPort.start (buf_len (shm s)) (_dst_port s) with
  | (Raise e, p) => (Raise e, with_dst p s)
  | (Ok u, p) => (Ok u, with_req_drain Req236 (with_dst p s))
  end.

(** Both ports started, each once. *)
Definition start_ports (s : state) : result state :=
  match start_src s with
  | (Raise e, _) => Raise e
  | (Ok _, s1) =>
      match start_dst s1 with
      | (Raise e, _) => Raise e
      | (Ok _, s2) => Ok s2
      end
  end.

(** The standard library's [SharedMemory(size=n)]: a region of the size
    asked for, [ValueError] unless [n] is positive. *)
Definition py_alloc (n : Z) : result Z :=
  if 0 <? n then Ok n else Raise ValueError.

(** Scenario channel: capacity 2, shape [(3,)], 32-bit integers. *)
Definition demo_channel : result state :=
  match PyPyChannel.init py_alloc "src" "dst" [3] int32 2 with
  | Raise e => Raise e
  | Ok c => start_ports c
  end.

(** [np.array(l, dtype=t)] for a flat list [l]. *)
Definition np_array (t : dtype) (l : list Z) : ndarray :=
  {| shape := [Z.of_nat (length l)]; dtype_ := t; data := l |}.

(** Schedules that run one call, or one round of a drain loop, without
    another thread in between: a whole [send(d)] (lines 122-127), one
    round of [_req_callback] (lines 236-240), a whole [recv()] (lines
    265-270) and a whole [peek()] (lines 257-259). *)
Definition do_send (d : ndarray) : list label :=
  [CallSend d; Sender; Sender; Sender; Sender; Sender].

Definition do_req_drain : list label :=
  [ReqDrain; ReqDrain; ReqDrain; ReqDrain; ReqDrain].

Definition do_recv : list label :=
  [CallRecv; Receiver; Receiver; Receiver; Receiver; Receiver].

Definition do_peek : list label := [CallPeek; Receiver; Receiver; Receiver].

(** ** CspSelector (lines 276-310) *)

(** The objects a selector is handed: send ports and receive ports. *)
Inductive port :=
  | SendPort (p : CspSendPort.t)
  | RecvPort (p : CspRecvPort.t).

Definition port_observer (p : port) : option callback :=
  match p with
  | SendPort p => CspSendPort.observer p
  | RecvPort p => CspRecvPort.observer p
  end.

(** [channel.observer = o] *)
Definition port_set_observer (o : option callback) (p : port) : port :=
  match p with
  | SendPort p => SendPort (CspSendPort.set_observer o p)
  | RecvPort p => RecvPort (CspRecvPort.set_observer o p)
  end.

(** [channel.probe()] with no other thread in between. *)
Definition port_probe (p : port) : result bool * port :=
  match p with
  | SendPort p => let '(r, p') := CspSendPort.probe p in (r, SendPort p')
  | RecvPort p => (CspRecvPort.probe p, RecvPort p)
  end.

Module CspSelector.

Section Select.

(** What actions return. *)
Context {V : Type}.

(** The ports live in a store and are passed by reference: a port may be
    listed twice, and actions work on the same objects. *)
#[local] Abbreviation world := (gmap nat port).

(** A nullary callable: it returns or raises, and may change the ports. *)
Definition action : Type := world -> result V * world.

(** [_set_observer] (lines 289-291) *)
Definition _set_observer (channel_actions : list (nat * action))
    (observer : option callback) (w : world) : world :=
  foldl (fun w '(channel, _) => alter (port_set_observer observer) channel w)
        w channel_actions.

(** [channel.probe()] through a reference; a reference to no port is an
    object without [probe]. *)
Definition probe_at (w : world) (channel : nat) : result bool * world :=
  match w !! channel with
  | None => (Raise AttributeError, w)
  | Some p => let '(r, p') := port_probe p in (r, <[channel := p']> w)
  end.

(** How a call of [select] ends, and in which world: through the action
    (line 309), through an exception of [probe] (line 307) or of
    [wait] (line 310); or it is still waiting when the observed run
    ends. *)
Inductive exit :=
  | ExitAction (r : result V) (w : world)
  | ExitProbe (e : exn) (w : world)
  | ExitWait (e : exn) (w : world)
  | Blocked (w : world).

(** The [for] loop (lines 306-309) over the pairs left to visit; [inr]
    when no port was ready. *)
Fixpoint scan (args rest : list (nat * action)) (w : world) : exit + world :=
  match rest with
  | [] => inr w
  | (channel, action) :: rest' =>
      match probe_at w channel with
      | (Raise e, w1) => inl (ExitProbe e w1)
      | (Ok true, w1) =>
          let '(r, w2) := action (_set_observer args None w1) in
          inl (ExitAction r w2)
      | (Ok false, w1) => scan args rest' w1
      end
  end.

(** What [self._cv.wait()] comes to: other threads change the ports and
    the call returns, or the call raises. *)
Inductive wake :=
  | Wake (f : world -> world)
  | WaitRaises (e : exn).

(** The [while True] loop (lines 305-310). *)
Fixpoint wait_loop (args : list (nat * action)) (env : list wake) (w : world)
    : exit :=
  match scan args args w with
  | inl x => x
  | inr w1 =>
      match env with
      | [] => Blocked w1
      | Wake f :: env' => wait_loop args env' (f w1)
      | WaitRaises e :: _ => ExitWait e w1
      end
  end.

(** [select] (lines 293-310) of selector number [self]. *)
Definition select (self : nat) (env : list wake) (args : list (nat * action))
    (w : world) : exit :=
  wait_loop args env (_set_observer args (Some (Changed self)) w).

(** The ports listed in a call. *)
Definition listed (args : list (nat * action)) : list nat := fst <$> args.

(** Every listed port has observer [o]. *)
Definition observers_are (o : option callback) (args : list (nat * action))
    (w : world) : Prop :=
  forall channel p, channel ∈ listed args -> w !! channel = Some p ->
    port_observer p = o.

End Select.

End CspSelector.

(** ** Bookkeeping of a channel *)

(** Slot permits available to [send]. *)
Definition permits (s : state) : Z :=
  match CspSendPort._semaphore (_src_port s) with
  | Some sem => sem_value sem
  | None => 0
  end.

(** Tokens queued on the receiver. *)
Definition tokens (s : state) : Z :=
  match CspRecvPort._queue (_dst_port s) with
  | Some q => CspRecvQueue.qsize q
  | None => 0
  end.

(** The sender holds a permit from line 124 until it has released [req];
    a running [probe] holds one between lines 113 and 115. *)
Definition sender_holds (pc : sender_pc) : Z :=
  match pc with
  | Send125 _ | Send126 _ | Send127 _ | SendProbe115 => 1
  | _ => 0
  end.

(** The request drain holds the unit it took from [req] until it has put
    the token. *)
Definition req_drain_holds (pc : req_pc) : Z :=
  match pc with
  | Req238 | Req239 _ => 1
  | _ => 0
  end.

(** The receiver holds the token it took until it has released [ack]. *)
Definition receiver_holds (pc : receiver_pc) : Z :=
  match pc with
  | Recv266 | Recv267 _ | Recv268 _ => 1
  | _ => 0
  end.

(** The acknowledge drain holds the unit it took from [ack] until it has
    released the permit, and its [probe] holds a permit between lines 113
    and 115. *)
Definition ack_drain_holds (pc : ack_pc) : Z :=
  match pc with
  | Ack101 | Ack102 _ => 1
  | Ack115 => 2
  | _ => 0
  end.

(** Units in transit: the counts of the two cross-process semaphores and
    the units held by a thread between two statements. *)
Definition in_transit (s : state) : Z :=
  sender_holds (sender s) + req s + req_drain_holds (req_drain s)
  + receiver_holds (receiver s) + ack s + ack_drain_holds (ack_drain s).

(** [recv] has released [ack] and is about to return. *)
Definition returning (pc : receiver_pc) : Z :=
  match pc with
  | Recv270 _ => 1
  | _ => 0
  end.

(** The tensor of the [send] in progress once it has passed line 122. *)
Definition sender_data (pc : sender_pc) : option ndarray :=
  match pc with
  | Send124 d | Send125 d | Send126 d | Send127 d => Some d
  | _ => None
  end.

(** The tensors written into the ring so far, in order. *)
Definition written (tr : list event) (s : state) : list ndarray :=
  sent tr ++ match sender s with
             | Send126 d | Send127 d => [d]
             | _ => []
             end.

(** The copy the receiver holds. *)
Definition receiver_result (pc : receiver_pc) : option ndarray :=
  match pc with
  | Recv267 a | Recv268 a | Recv270 a | Peek259 a => Some a
  | _ => None
  end.

(** Every tensor [recv] or [peek] returned, with the number of [recv]s
    that had returned before it. *)
Fixpoint observed (k : nat) (tr : list event) : list (nat * ndarray) :=
  match tr with
  | [] => []
  | RecvReturned a :: tr' => (k, a) :: observed (S k) tr'
  | PeekReturned a :: tr' => (k, a) :: observed k tr'
  | _ :: tr' => observed k tr'
  end.

(** The [i]-th message as the receiver sees it: the [i]-th tensor whose
    [send] returned, converted to the channel's dtype. *)
Definition delivered (t : dtype) (tr : list event) (k : nat) (a : ndarray) : Prop :=
  exists d, sent tr !! k = Some d /\ a = astype t d.

(** The invariant of a channel of shape [sh], dtype [t] and capacity [n]
    after the run [tr]. *)
Record Inv (sh : list Z) (t : dtype) (n : Z) (tr : list event) (s : state)
    : Prop := mk_Inv {
  inv_src_shape : CspSendPort._shape (_src_port s) = sh;
  inv_src_dtype : CspSendPort._dtype (_src_port s) = t;
  inv_src_size : CspSendPort._size (_src_port s) = n;
  inv_src_array : CspSendPort._array (_src_port s) = range n;
  inv_dst_shape : CspRecvPort._shape (_dst_port s) = sh;
  inv_dst_dtype : CspRecvPort._dtype (_dst_port s) = t;
  inv_dst_size : CspRecvPort._size (_dst_port s) = n;
  inv_dst_array : CspRecvPort._array (_dst_port s) = range n;
  inv_size : 0 <= n;
  inv_shape : 0 < n -> sh <> [];
  inv_slots : length (slots (shm s)) = Z.to_nat n;
  inv_sem : exists v, CspSendPort._semaphore (_src_port s)
                      = Some {| sem_value := v; sem_initial := n |} /\ 0 <= v;
  inv_queue : exists q, CspRecvPort._queue (_dst_port s)
                        = Some {| CspRecvQueue.maxsize := n; CspRecvQueue.queue := q |};
  inv_req : 0 <= req s;
  inv_ack : 0 <= ack s;
  inv_count : permits s + tokens s + in_transit s = n;
  inv_flow : Z.of_nat (length (sent tr))
             = Z.of_nat (length (received tr)) + returning (receiver s)
               + req s + req_drain_holds (req_drain s) + tokens s
               + receiver_holds (receiver s);
  inv_src_idx : 0 < n ->
    CspSendPort._idx (_src_port s)
    = (Z.of_nat (length (sent tr))
       + match sender s with Send127 _ => 1 | _ => 0 end) mod n;
  inv_dst_idx : 0 < n ->
    CspRecvPort._idx (_dst_port s)
    = (Z.of_nat (length (received tr))
       + match receiver s with Recv268 _ | Recv270 _ => 1 | _ => 0 end) mod n;
  inv_sender_shape : forall d, sender_data (sender s) = Some d -> shape d = sh;
  inv_sent_shape : Forall (fun d => shape d = sh) (sent tr);
  inv_cells : forall (k : nat) d,
    Z.of_nat (length (received tr)) + returning (receiver s) <= Z.of_nat k ->
    written tr s !! k = Some d ->
    slots (shm s) !! Z.to_nat (Z.of_nat k mod n) = Some (wrap t <$> data d);
  inv_receiver : forall a, receiver_result (receiver s) = Some a ->
    delivered t tr (length (received tr)) a;
  inv_peek : receiver s = Peek258 -> 0 < tokens s;
  inv_observed : Forall (fun '(k, a) => delivered t tr k a) (observed 0 tr)
}.

(** The states a started channel goes through. *)
Definition reachable (s0 : state) (tr : list event) (s : state) : Prop :=
  exists ls, exec ls s0 = Some (tr, s).

(** A started channel of shape [sh], dtype [t] and capacity [n]: built by
    the factory, then both ports started, each once. *)
Definition started (sh : list Z) (t : dtype) (n : Z) (s0 : state) : Prop :=
  exists alloc src_name dst_name c,
    PyPyChannel.init alloc src_name dst_name sh t n = Ok c /\
    start_ports c = Ok s0.

(** ** Scenarios *)

(** The scenario channel once started. *)
Definition demo_state : state :=
  Eval vm_compute in
    match demo_channel with
    | Ok s => s
    | Raise _ =>
        mk_state (CspSendPort.init "" (mk_Proto [] int8 (NInt 0)) 0)
          (CspRecvPort.init "" (mk_Proto [] int8 (NInt 0)) 0)
          (mk_shm 0 []) 0 0 SenderIdle ReceiverIdle AckNoThread ReqNoThread
    end.

Definition run (ls : list label) : list event * state :=
  match exec ls demo_state with
  | Some r => r
  | None => ([], demo_state)
  end.

(** One tensor sent, peeked twice and received. *)
Definition round_trip : list label :=
  do_send (np_array int32 [1; 2; 3]) ++ do_req_drain ++ do_peek ++ do_peek ++ do_recv.

(** An [int64] tensor on the [int32] channel. *)
Definition wide : ndarray :=
  {| shape := [3]; dtype_ := int64; data := [2147483648; 0; 0] |}.

Definition wide_trip : list label := do_send wide ++ do_req_drain ++ do_recv.

(** The scenario channel built and not started. *)
Definition demo_fresh : state :=
  Eval vm_compute in
    match PyPyChannel.init py_alloc "src" "dst" [3] int32 2 with
    | Ok s => s
    | Raise _ => demo_state
    end.

(** Two tensors sent and announced, a third [send] waiting at line 124
    and the acknowledge drain waiting at line 100. *)
Definition full_ring : list label :=
  do_send (np_array int32 [1; 1; 1]) ++ do_send (np_array int32 [2; 2; 2])
  ++ do_req_drain ++ do_req_drain ++ [AckDrain]
  ++ [CallSend (np_array int32 [3; 3; 3]); Sender].

(** ** Reading the receive queue and the selector *)

(** [get] hands out the head of the queue; [peek] leaves it in place. *)
Definition taken (peek : bool) (maxsize item : Z) (rest : list Z)
    : CspRecvQueue.outcome :=
  CspRecvQueue.Got item
    {| CspRecvQueue.maxsize := maxsize;
       CspRecvQueue.queue := if peek then item :: rest else rest |}.

(** A clock that advances ten ticks between two readings. *)
Definition ticking (k : nat) : Z := 10 * Z.of_nat k.

(** [channel.probe()] returns [b] in the world [w]. *)
Definition ready_at (w : gmap nat port) (channel : nat) (b : bool) : Prop :=
  exists p, w !! channel = Some p /\ fst (port_probe p) = Ok b.

(** Three ports for a selector: an empty receive port, a receive port
    with one token and a send port with free slots. *)
Definition demo_world : gmap nat port :=
  {[ 0%nat := RecvPort (_dst_port demo_state);
     1%nat := RecvPort (CspRecvPort.set_queue
                          (Some {| CspRecvQueue.maxsize := 2;
                                   CspRecvQueue.queue := [0] |})
                          (_dst_port demo_state));
     2%nat := SendPort (_src_port demo_state) ]}.

(** An action that returns [v] and touches no port. *)
Definition constant (v : Z) : @CspSelector.action Z := fun w => (Ok v, w).

Definition demo_args : list (nat * @CspSelector.action Z) :=
  [(0%nat, constant 10); (1%nat, constant 11); (2%nat, constant 12)].

(** A receive port that was never started, with an observer of its own. *)
Definition idle_world : gmap nat port :=
  {[ 0%nat := RecvPort (CspRecvPort.set_observer (Some (OtherCallback 1))
                          (_dst_port demo_fresh)) ]}.

Definition idle_args : list (nat * @CspSelector.action Z) :=
  [(0%nat, constant 10)].

(** ** Health of a channel and its traffic *)

(** A drain thread that has not been killed by an exception: only
    [EOFError] is caught (lines 105 and 242). *)
Definition ack_alive (pc : ack_pc) : Prop :=
  match pc with AckDied _ => False | _ => True end.
Definition req_alive (pc : req_pc) : Prop :=
  match pc with ReqDied _ => False | _ => True end.

(** Events that are no failure of the channel: [send] may reject a tensor
    of the wrong shape (line 123); every other exception is one. *)
Definition quiet (e : event) : Prop :=
  match e with
  | SendRaised x => x = AssertionError
  | RecvRaised _ => False
  | _ => True
  end.

(** Calls of [send] and [recv] that return with this event. *)
Definition send_returned (e : event) : Z :=
  match e with SendReturned _ => 1 | _ => 0 end.
Definition recv_returned (e : event) : Z :=
  match e with RecvReturned _ => 1 | _ => 0 end.

(** Permits the acknowledge drain may still release once [join] was
    called: the thread tests [_done] at line 99 only, so a drain that is
    inside the loop finishes its round. *)
Definition ack_drain_owes (pc : ack_pc) : Z :=
  match pc with
  | Ack100 => 1
  | _ => ack_drain_holds pc
  end.

(** Tokens the request drain may still put once [join] was called. *)
Definition req_drain_owes (pc : req_pc) : Z :=
  match pc with
  | Req237 => 1
  | _ => req_drain_holds pc
  end.

(** A [recv] that has taken its token and a [send] that has taken its
    permit, both about to touch a slot. *)
Definition overlap : list label :=
  do_send (np_array int32 [1; 2; 3]) ++ do_req_drain
  ++ [CallRecv; Receiver]
  ++ [CallSend (np_array int32 [4; 5; 6]); Sender; Sender].

(** One tensor sent and announced. *)
Definition announced : list label :=
  do_send (np_array int32 [1; 2; 3]) ++ do_req_drain.

(** Two tensors sent and none received: the ring is full. *)
Definition two_sent : list label :=
  do_send (np_array int32 [1; 1; 1]) ++ do_send (np_array int32 [2; 2; 2]).

(** Both ports joined and both drains gone through their loop heads. *)
Definition joined : list label := [JoinSend; AckDrain; JoinRecv; ReqDrain].

(** A send port of negative size. *)
Definition negative_port : CspSendPort.t :=
  CspSendPort.init "src" (mk_Proto [3] int32 (NInt 12)) (-1).

(** * Proofs *)

(** ** Runs and traces *)

Lemma exec_snoc ls l s :
  exec (ls ++ [l]) s =
  match exec ls s with
  | None => None
  | Some (tr, s1) =>
      match step l s1 with
      | None => None
      | Some (e, s2) => Some (tr ++ [e], s2)
      end
  end.
Proof.
  revert s. induction ls as [|l0 ls IH]; intros s; simpl.
  - destruct (step l s) as [[e s2]|]; reflexivity.
  - destruct (step l0 s) as [[e0 s1]|]; [|reflexivity].
    rewrite IH. destruct (exec ls s1) as [[tr s2]|]; [|reflexivity].
    destruct (step l s2) as [[e s3]|]; reflexivity.
Qed.

Lemma sent_snoc tr e :
  sent (tr ++ [e]) = sent tr ++ match e with SendReturned d => [d] | _ => [] end.
Proof. unfold sent. rewrite omap_app. simpl. destruct e; reflexivity. Qed.

Lemma received_snoc tr e :
  received (tr ++ [e]) = received tr ++ match e with RecvReturned a => [a] | _ => [] end.
Proof. unfold received. rewrite omap_app. simpl. destruct e; reflexivity. Qed.

Lemma observed_snoc tr e k :
  observed k (tr ++ [e]) =
  observed k tr ++ match e with
                   | RecvReturned a | PeekReturned a => [((k + length (received tr))%nat, a)]
                   | _ => []
                   end.
Proof.
  revert k. induction tr as [|e0 tr IH]; intros k; simpl.
  - rewrite Nat.add_0_r. destruct e; reflexivity.
  - destruct e0; simpl; rewrite ?IH; try reflexivity.
    + unfold received. simpl. f_equal. destruct e; try reflexivity;
        repeat f_equal; fold (received tr); lia.
Qed.

Lemma mod_distinct n a b : 0 < n -> 0 < b - a < n -> a mod n <> b mod n.
Proof.
  intros Hn Hab Heq.
  assert (H : (b - a) mod n = 0).
  { rewrite Zminus_mod, Heq, Z.sub_diag. apply Z.mod_0_l. lia. }
  rewrite Z.mod_small in H; lia.
Qed.

Lemma delivered_snoc t tr e k a : delivered t tr k a -> delivered t (tr ++ [e]) k a.
Proof.
  intros (d & Hd & ->). exists d. split; [|reflexivity].
  rewrite sent_snoc. apply lookup_app_l_Some. exact Hd.
Qed.

Lemma py_index_range n i : 0 <= i < n -> py_index (range n) i = Ok (Z.to_nat i).
Proof.
  intros Hi. unfold py_index, range.
  destruct (i <? 0) eqn:E; [lia|]. rewrite E.
  rewrite lookup_seq_lt by lia. reflexivity.
Qed.

Lemma holds_bounds s :
  0 <= sender_holds (sender s) <= 1 /\ 0 <= req_drain_holds (req_drain s) <= 1 /\
  0 <= receiver_holds (receiver s) <= 1 /\ 0 <= ack_drain_holds (ack_drain s) <= 2 /\
  0 <= returning (receiver s) <= 1.
Proof.
  destruct (sender s), (req_drain s), (receiver s), (ack_drain s); simpl; lia.
Qed.

Lemma sent_lookup_shape sh tr k d :
  Forall (fun d => shape d = sh) (sent tr) -> sent tr !! k = Some d -> shape d = sh.
Proof. intros H Hk. eapply (proj1 (Forall_lookup _ _) H); eauto. Qed.

(** Line 125 under the invariant: the slot written is free. *)
Lemma step_Inv_write sh t n tr s d e s' :
  Inv sh t n tr s -> sender s = Send125 d -> step Sender s = Some (e, s') ->
  Inv sh t n (tr ++ [e]) s'.
Proof.
  intros HI Hpc Hstep. pose proof (holds_bounds s) as Hb.
  destruct HI as [inv_src_shape inv_src_dtype inv_src_size inv_src_array
    inv_dst_shape inv_dst_dtype inv_dst_size inv_dst_array inv_size inv_shape
    inv_slots inv_sem inv_queue inv_req inv_ack inv_count inv_flow
    inv_src_idx inv_dst_idx inv_sender_shape inv_sent_shape inv_cells
    inv_receiver inv_peek inv_observed].
  destruct inv_sem as (v & Hsem & Hv). destruct inv_queue as (q & Hq).
  unfold permits, tokens, in_transit in *. rewrite Hsem, Hq in *.
  unfold CspRecvQueue.qsize in *. simpl in *.
  rewrite Hpc in *. simpl in *.
  assert (Hn : 0 < n) by lia.
  specialize (inv_src_idx Hn). rewrite Z.add_0_r in inv_src_idx.
  pose proof (Z.mod_pos_bound (Z.of_nat (length (sent tr))) n Hn) as Hmod.
  unfold step_sender, write_slot in Hstep. rewrite Hpc in Hstep.
  rewrite (inv_sender_shape d eq_refl) in Hstep.
  destruct sh as [|d0 sh']; [exfalso; apply (inv_shape Hn); reflexivity|].
  rewrite inv_src_array, inv_src_idx, py_index_range in Hstep by lia.
  injection Hstep as <- <-.
  constructor; unfold permits, tokens, in_transit, written, CspRecvQueue.qsize;
    rewrite ?sent_snoc, ?received_snoc, ?observed_snoc, ?app_nil_r; simpl;
    rewrite ?Hsem, ?Hq, ?inv_src_dtype, ?Hpc, ?app_nil_r; simpl;
    try assumption; try lia; eauto.
  - rewrite length_insert. assumption.
  - intros _. rewrite Z.add_0_r. assumption.
  - intros k d1 Hk Hw. unfold written in inv_cells. rewrite Hpc, app_nil_r in inv_cells.
    destruct (decide (k = length (sent tr))) as [->|Hne].
    + rewrite lookup_app_r, Nat.sub_diag in Hw by lia. injection Hw as <-.
      apply list_lookup_insert_eq. lia.
    + assert (Hlt : (k < length (sent tr))%nat).
      { apply lookup_lt_Some in Hw. rewrite length_app in Hw. simpl in Hw. lia. }
      rewrite lookup_app_l in Hw by exact Hlt.
      rewrite list_lookup_insert_ne; [apply inv_cells; [lia|exact Hw]|].
      intros Heq. apply Z2Nat.inj in Heq; try lia.
      * symmetry in Heq. revert Heq. apply mod_distinct; lia.
      * apply Z.mod_pos_bound; lia.
  - intros a Ha. apply delivered_snoc, inv_receiver. exact Ha.
  - eapply Forall_impl; [eassumption|]. intros [] ?. apply delivered_snoc. assumption.
Qed.

Lemma copy_slot_Inv sh t n tr s :
  Inv sh t n tr s -> receiver s = Recv266 \/ receiver s = Peek258 ->
  exists d, sent tr !! length (received tr) = Some d /\
            copy_slot (_dst_port s) (shm s) = Ok (astype t d).
Proof.
  intros HI Hpc. pose proof (holds_bounds s) as Hb.
  destruct HI as [inv_src_shape inv_src_dtype inv_src_size inv_src_array
    inv_dst_shape inv_dst_dtype inv_dst_size inv_dst_array inv_size inv_shape
    inv_slots inv_sem inv_queue inv_req inv_ack inv_count inv_flow
    inv_src_idx inv_dst_idx inv_sender_shape inv_sent_shape inv_cells
    inv_receiver inv_peek inv_observed].
  destruct inv_sem as (v & Hsem & Hv). destruct inv_queue as (q & Hq).
  unfold permits, tokens, in_transit in *. rewrite Hsem, Hq in *.
  unfold CspRecvQueue.qsize in *. simpl in *.
  assert (Hr : returning (receiver s) = 0 /\
               1 <= Z.of_nat (length q) + receiver_holds (receiver s) /\
               match receiver s with Recv268 _ | Recv270 _ => 1 | _ => 0 end = 0).
  { destruct Hpc as [Hpc|Hpc]; rewrite Hpc in *; simpl; [lia|].
    specialize (inv_peek eq_refl). lia. }
  destruct Hr as (Hr1 & Hr2 & Hr3).
  assert (Hn : 0 < n) by lia.
  specialize (inv_dst_idx Hn). rewrite Hr3, Z.add_0_r in inv_dst_idx.
  pose proof (Z.mod_pos_bound (Z.of_nat (length (received tr))) n Hn) as Hmod.
  destruct (lookup_lt_is_Some_2 (sent tr) (length (received tr))) as [d Hd]; [lia|].
  exists d. split; [exact Hd|].
  unfold copy_slot. rewrite inv_dst_array, inv_dst_idx, py_index_range by lia.
  rewrite (inv_cells (length (received tr)) d).
  - unfold astype. rewrite inv_dst_shape, inv_dst_dtype.
    rewrite (sent_lookup_shape _ _ _ _ inv_sent_shape Hd). reflexivity.
  - lia.
  - unfold written. apply lookup_app_l_Some. exact Hd.
Qed.

Ltac bool_props :=
  repeat match goal with
  | H : (_ <? _) = true |- _ => apply Z.ltb_lt in H
  | H : (_ <? _) = false |- _ => apply Z.ltb_ge in H
  | H : (_ <=? _) = true |- _ => apply Z.leb_le in H
  | H : (_ <=? _) = false |- _ => apply Z.leb_gt in H
  | H : (_ =? _) = true |- _ => apply Z.eqb_eq in H
  | H : (_ =? _) = false |- _ => apply Z.eqb_neq in H
  | H : _ && _ = true |- _ => apply andb_true_iff in H; destruct H
  | H : _ && _ = false |- _ => apply andb_false_iff in H
  end.

Ltac break_state s :=
  let src := fresh "src" in let dst := fresh "dst" in let m := fresh "m" in
  destruct s as [src dst m ? ? ? ? ? ?]; destruct src, dst, m.

Ltac split_step H :=
  repeat match type of H with
  | context [?a <? ?b] => destruct (a <? b) eqn:?
  | context [?a <=? ?b] => destruct (a <=? b) eqn:?
  | context [?a =? ?b] => destruct (a =? b) eqn:?
  | context [decide ?P] => destruct (decide P)
  | context [if ?b then _ else _] => destruct b eqn:?
  | context [match ?x with _ => _ end] => destruct x eqn:?
  end; try discriminate H; inversion H; subst; clear H;
  repeat match goal with
  | E : match ?x with _ => _ end = _ |- _ =>
      destruct x eqn:?; try discriminate E; inversion E; subst; clear E
  end.

Ltac unfold_ops :=
  unfold permits, tokens, in_transit, written, step_sender, step_receiver,
    step_ack_drain, step_req_drain, advance, queue_get, CspRecvQueue.get,
    CspRecvQueue.take, CspRecvQueue.put_nowait, CspRecvPort.probe,
    sem_try_acquire, sem_release, notify, CspRecvQueue.qsize,
    CspRecvQueue.with_queue in *.

Ltac old_delivered :=
  eapply Forall_impl; [eassumption|]; intros [] ?; apply delivered_snoc; assumption.

Ltac finish_inv :=
  match goal with
  | |- _ => assumption
  | |- _ => lia
  | |- _ => congruence
  | |- exists _, Some _ = Some _ /\ _ => eexists; split; [reflexivity|lia]
  | |- exists _, Some _ = Some _ => eexists; reflexivity
  | |- forall _, None = Some _ -> _ => intros ? [=]
  | |- forall _, Some _ = Some _ -> shape _ = _ => solve [eauto]
  | |- _ = Peek258 -> _ => intros [=]
  | |- _ = Peek258 -> _ => intros ?; rewrite ?length_app; simpl; lia
  | |- Forall _ (sent _ ++ [_]) => apply Forall_app; split; [assumption|]; repeat constructor; solve [eauto]
  | |- forall _, _ -> delivered _ _ _ _ => intros ? ?; apply delivered_snoc; solve [eauto]
  | |- Forall _ (observed _ _) => old_delivered
  | |- Forall _ (observed _ _ ++ [_]) => apply Forall_app; split; [old_delivered|]; repeat constructor; apply delivered_snoc; solve [eauto]
  | H : 0 < ?n -> ?i = _ |- 0 < ?n -> (?i + 1) mod ?n = _ =>
      let Hn := fresh in intros Hn; rewrite (H Hn), Zplus_mod_idemp_l; f_equal; lia
  | H : 0 < ?n -> ?i = _ |- 0 < ?n -> ?i = _ =>
      let Hn := fresh in intros Hn; rewrite (H Hn), ?length_app; simpl; f_equal; lia
  | H : forall k d, _ -> _ -> ?sl !! _ = _ |- forall k d, _ -> _ -> ?sl !! _ = _ =>
      let k := fresh in let d := fresh in let Hk := fresh in let Hw := fresh in
      intros k d Hk Hw; rewrite ?length_app in Hk; simpl in Hk;
      rewrite <- ?app_assoc in Hw; simpl in Hw;
      apply H; [lia | solve [exact Hw | rewrite app_nil_r; exact Hw ]]
  end.

Ltac start_inv HI s :=
  pose proof (holds_bounds s);
  let v := fresh "v" in let q := fresh "q" in
  let Hs := fresh "Hs" in let Hq := fresh "Hq" in let Hv := fresh "Hv" in
  let Hc := fresh "Hcount" in
  destruct HI as [? ? ? ? ? ? ? ? ? ? ? (v & Hs & Hv) (q & Hq) ? ? Hc ? ? ? ? ? ? ? ? ?];
  apply Z.sub_move_0_r in Hc;
  break_state s; unfold_ops; simpl in *; subst; simpl in *.

Ltac close_inv :=
  bool_props; simpl in *; subst; simpl in *;
  try (exfalso; lia);
  try (exfalso; congruence);
  constructor; unfold_ops;
  rewrite ?sent_snoc, ?received_snoc, ?observed_snoc, ?app_nil_r; simpl in *;
  rewrite ?app_nil_r, ?length_app in *; simpl in *;
  try finish_inv.

Lemma step_Inv_copy sh t n tr s e s' :
  Inv sh t n tr s -> receiver s = Recv266 \/ receiver s = Peek258 ->
  step Receiver s = Some (e, s') -> Inv sh t n (tr ++ [e]) s'.
Proof.
  intros HI Hpc Hstep.
  destruct (copy_slot_Inv _ _ _ _ _ HI Hpc) as (d & Hd & Hcopy).
  unfold step, step_receiver in Hstep.
  destruct Hpc as [Hpc|Hpc]; rewrite Hpc, Hcopy in Hstep; injection Hstep as <- <-;
    start_inv HI s; close_inv.
  all: intros ? [= <-]; apply delivered_snoc; exists d; split; [assumption|reflexivity].
Qed.

Lemma step_Inv_sender sh t n tr s e s' :
  Inv sh t n tr s -> step Sender s = Some (e, s') -> Inv sh t n (tr ++ [e]) s'.
Proof.
  intros HI Hstep.
  destruct (sender s) as [| | |d| | | |] eqn:Hsnd.
  4: eapply step_Inv_write; eassumption.
  all: start_inv HI s.
  all: unfold step in Hstep; unfold_ops; simpl in Hstep.
  all: split_step Hstep.
  all: close_inv.
Qed.

Lemma step_Inv_receiver sh t n tr s e s' :
  Inv sh t n tr s -> step Receiver s = Some (e, s') -> Inv sh t n (tr ++ [e]) s'.
Proof.
  intros HI Hstep.
  destruct (receiver s) eqn:Hrcv.
  3, 8: eapply step_Inv_copy; eauto.
  all: start_inv HI s.
  all: unfold step in Hstep; unfold_ops; simpl in Hstep.
  all: split_step Hstep.
  all: close_inv.
Qed.

Lemma step_Inv_ack_drain sh t n tr s e s' :
  Inv sh t n tr s -> step AckDrain s = Some (e, s') -> Inv sh t n (tr ++ [e]) s'.
Proof.
  intros HI Hstep.
  destruct (ack_drain s) eqn:Hpc.
  all: start_inv HI s.
  all: unfold step in Hstep; unfold_ops; simpl in Hstep.
  all: split_step Hstep.
  all: close_inv.
Qed.

Lemma step_Inv_req_drain sh t n tr s e s' :
  Inv sh t n tr s -> step ReqDrain s = Some (e, s') -> Inv sh t n (tr ++ [e]) s'.
Proof.
  intros HI Hstep.
  destruct (req_drain s) eqn:Hpc.
  all: start_inv HI s.
  all: unfold step in Hstep; unfold_ops; simpl in Hstep.
  all: split_step Hstep.
  all: close_inv.
Qed.

Lemma step_Inv sh t n tr s l e s' :
  Inv sh t n tr s -> step l s = Some (e, s') -> Inv sh t n (tr ++ [e]) s'.
Proof.
  intros HI Hstep. destruct l.
  3: eapply step_Inv_sender; eassumption.
  6: eapply step_Inv_receiver; eassumption.
  6: eapply step_Inv_ack_drain; eassumption.
  7: eapply step_Inv_req_drain; eassumption.
  all: start_inv HI s.
  all: unfold step in Hstep; unfold_ops; simpl in Hstep.
  all: split_step Hstep.
  all: close_inv.
Qed.

Lemma make_views_Ok len sh t nb l vs :
  make_views len sh t nb l = Ok vs ->
  vs = l /\ (l <> [] -> exists z, nb = NInt z).
Proof.
  revert vs. induction l as [|i l IH]; intros vs H; simpl in H.
  - injection H as <-. split; [reflexivity|congruence].
  - destruct (make_view len sh t nb i) as [v|e] eqn:Hv; [|discriminate].
    destruct (make_views len sh t nb l) as [vs'|e]; [|discriminate].
    injection H as <-. destruct (IH vs' eq_refl) as [-> _].
    unfold make_view in Hv. destruct nb as [z|z]; [|discriminate].
    split; [|eauto].
    destruct (_ <? _); [discriminate|]. destruct (forallb _ _); [|discriminate].
    congruence.
Qed.

Lemma init_Inv alloc sn dn sh t n c s0 :
  PyPyChannel.init alloc sn dn sh t n = Ok c -> start_ports c = Ok s0 ->
  Inv sh t n [] s0.
Proof.
  unfold PyPyChannel.init. destruct (alloc _) as [len|e]; [|discriminate].
  intros [= <-]. unfold start_ports, start_src, start_dst, CspSendPort.start,
    CspRecvPort.start, CspSendPort.init, CspRecvPort.init, CspRecvQueue.new. simpl.
  destruct (make_views _ _ _ _ _) as [views|e] eqn:Hviews; [|discriminate].
  destruct (make_views_Ok _ _ _ _ _ _ Hviews) as [-> Hnb].
  unfold BoundedSemaphore_new. destruct (n <? 0) eqn:Hn; [discriminate|].
  apply Z.ltb_ge in Hn. simpl. rewrite Hviews. simpl. intros [= <-].
  constructor; simpl; unfold permits, tokens, in_transit, written; simpl;
    try reflexivity; try lia; eauto.
  - intros Hpos ->. destruct Hnb as [z Hz]; [|discriminate].
    unfold range. destruct (Z.to_nat n) eqn:E; [lia|discriminate].
  - apply length_replicate.
  - unfold CspRecvQueue.qsize. simpl. lia.
  - intros ? [=].
  - intros k d _ Hk. rewrite lookup_nil in Hk. discriminate.
  - intros ? [=].
  - intros [=].
Qed.

Lemma reachable_Inv sh t n s0 tr s :
  Inv sh t n [] s0 -> reachable s0 tr s -> Inv sh t n tr s.
Proof.
  intros H0 [ls Hls]. revert tr s Hls.
  induction ls as [|l ls IH] using rev_ind; intros tr s Hls.
  - injection Hls as <- <-. exact H0.
  - rewrite exec_snoc in Hls.
    destruct (exec ls s0) as [[tr1 s1]|]; [|discriminate].
    destruct (step l s1) as [[e s2]|] eqn:Hstep; [|discriminate].
    injection Hls as <- <-. eapply step_Inv; [|exact Hstep]. apply IH. reflexivity.
Qed.

(** ** Conversions and observations *)

Lemma wrap_in_range t z : in_range t z -> wrap t z = z.
Proof.
  unfold in_range, wrap. intros H.
  destruct t; cbv [itemsize] in *;
    match goal with
    | |- context [2 ^ ?e] =>
        let v := eval vm_compute in (2 ^ e) in change (2 ^ e) with v
    end;
    match goal with
    | |- context [?a / 2] =>
        let v := eval vm_compute in (a / 2) in change (a / 2) with v
    end;
    match type of H with
    | context [2 ^ ?e] =>
        let v := eval vm_compute in (2 ^ e) in change (2 ^ e) with v in H
    end;
    rewrite Z.mod_small; lia.
Qed.

Lemma astype_same t x :
  dtype_ x = t -> Forall (in_range t) (data x) -> astype t x = x.
Proof.
  intros <- H. destruct x as [sh t d]. unfold astype. simpl in *. f_equal.
  induction H as [|z d Hz _ IH]; simpl; [reflexivity|].
  rewrite wrap_in_range by exact Hz. f_equal. exact IH.
Qed.

Lemma observed_app k tr1 tr2 :
  observed k (tr1 ++ tr2)
  = observed k tr1 ++ observed (k + length (received tr1)) tr2.
Proof.
  revert k. induction tr1 as [|e tr1 IH]; intros k; simpl.
  - rewrite Nat.add_0_r. reflexivity.
  - destruct e; simpl; rewrite ?IH; try reflexivity.
    unfold received. simpl. do 3 f_equal. lia.
Qed.

Lemma observed_received k tr i y :
  received tr !! i = Some y -> (k + i, y)%nat ∈ observed k tr.
Proof.
  revert k i. induction tr as [|e tr IH]; intros k i H; [discriminate|].
  destruct e; simpl in *; try (apply IH; exact H).
  - unfold received in H. simpl in H. destruct i as [|i]; simpl in H.
    + injection H as <-. rewrite Nat.add_0_r. left.
    + right. replace (k + S i)%nat with (S k + i)%nat by lia. apply IH. exact H.
  - right. apply IH. exact H.
Qed.

Lemma delivered_unique t tr k a b :
  delivered t tr k a -> delivered t tr k b -> a = b.
Proof. intros (d & Hd & ->) (d' & Hd' & ->). congruence. Qed.


(** ** Ordering *)

Lemma started_Inv sh t n s0 tr s :
  started sh t n s0 -> reachable s0 tr s -> Inv sh t n tr s.
Proof.
  intros (alloc & sn & dn & c & Hc & Hs) Hr.
  eapply reachable_Inv; [|exact Hr]. eapply init_Inv; eassumption.
Qed.

Lemma demo_started : started [3] int32 2 demo_state.
Proof.
  exists py_alloc, "src"%string, "dst"%string. eexists. split; reflexivity.
Defined.

Lemma run_reachable ls : exec ls demo_state <> None -> reachable demo_state (fst (run ls)) (snd (run ls)).
Proof.
  intros H. exists ls. unfold run. destruct (exec ls demo_state) as [[tr s]|]; [reflexivity|congruence].
Defined.

(** C1 (as amended): FIFO preservation.  On a started channel, under
    every schedule of the four threads, the i-th [recv] that returns
    gives the i-th tensor whose [send] returned, converted to the
    channel's dtype by the slot assignment of line 125; it is equal to
    the tensor sent whenever that tensor has the channel's dtype. *)
Theorem fifo_preservation sh t n s0 tr s i y :
  started sh t n s0 -> reachable s0 tr s -> received tr !! i = Some y ->
  exists x, sent tr !! i = Some x /\ y = astype t x /\
            (dtype_ x = t -> Forall (in_range t) (data x) -> y = x).
Proof.
  intros Hs Hr Hy.
  pose proof (inv_observed _ _ _ _ _ (started_Inv _ _ _ _ _ _ Hs Hr)) as Hobs.
  pose proof (observed_received 0 tr i y Hy) as Hin.
  rewrite Forall_forall in Hobs. specialize (Hobs _ Hin). simpl in Hobs.
  destruct Hobs as (x & Hx & ->). exists x. split; [exact Hx|]. split; [reflexivity|].
  apply astype_same.
Qed.

Lemma fifo_preservation_witness :
  exists x, sent (fst (run round_trip)) !! 0%nat = Some x /\
            np_array int32 [1; 2; 3] = astype int32 x /\
            (dtype_ x = int32 -> Forall (in_range int32) (data x) ->
             np_array int32 [1; 2; 3] = x).
Proof.
  apply (fifo_preservation [3] int32 2 demo_state (fst (run round_trip))
           (snd (run round_trip)) 0 (np_array int32 [1; 2; 3]) demo_started).
  - apply run_reachable. vm_compute. discriminate.
  - vm_compute. reflexivity.
Defined.

Lemma fifo_equal_counterexample :
  exists x y, sent (fst (run wide_trip)) !! 0%nat = Some x /\
              received (fst (run wide_trip)) !! 0%nat = Some y /\
              data y <> data x.
Proof.
  exists wide, {| shape := [3]; dtype_ := int32; data := [-2147483648; 0; 0] |}.
  vm_compute. repeat split; discriminate.
Qed.


(** ** Capacity *)

Lemma exec_cons l ls s :
  exec (l :: ls) s =
  match step l s with
  | None => None
  | Some (e, s') =>
      match exec ls s' with
      | None => None
      | Some (es, s'') => Some (e :: es, s'')
      end
  end.
Proof. reflexivity. Qed.

(** The units on the sender's side are the free capacity. *)
Lemma credit sh t n tr s :
  Inv sh t n tr s ->
  permits s + sender_holds (sender s) + ack s + ack_drain_holds (ack_drain s)
  = n - (Z.of_nat (length (sent tr)) - Z.of_nat (length (received tr))
         - returning (receiver s)).
Proof.
  intros HI. pose proof (inv_count _ _ _ _ _ HI) as Hc.
  pose proof (inv_flow _ _ _ _ _ HI) as Hf. unfold in_transit in Hc. lia.
Qed.

Lemma full_blocks sh t n tr s :
  Inv sh t n tr s ->
  Z.of_nat (length (sent tr)) = Z.of_nat (length (received tr)) + n ->
  returning (receiver s) = 0 ->
  permits s = 0 /\
  fst (CspSendPort.probe (_src_port s)) = Ok false /\
  (forall d, step Sender (with_sender (Send124 d) s) = None) /\
  (sender s = SenderIdle -> forall d, shape d = sh ->
     exec [CallSend d; Sender] s = Some ([Tau; Tau], with_sender (Send124 d) s) /\
     exec [CallSend d; Sender; Sender] s = None).
Proof.
  intros HI Hfull Hret. pose proof (credit _ _ _ _ _ HI) as Hcr.
  pose proof (holds_bounds s) as Hb. pose proof (inv_ack _ _ _ _ _ HI) as Hack.
  destruct (inv_sem _ _ _ _ _ HI) as (v & Hsem & Hv).
  pose proof (inv_src_shape _ _ _ _ _ HI) as Hshape.
  unfold permits in *. rewrite Hsem in *. simpl in Hcr.
  assert (v = 0) by lia. subst v.
  assert (Hblock : forall d, step Sender (with_sender (Send124 d) s) = None).
  { intros d. unfold step, step_sender. destruct s; simpl in *. rewrite Hsem. reflexivity. }
  split; [reflexivity|]. split; [|split; [exact Hblock|]].
  - unfold CspSendPort.probe. rewrite Hsem. reflexivity.
  - intros Hidle d Hd.
    assert (H1 : step (CallSend d) s = Some (Tau, with_sender (Send122 d) s)).
    { unfold step. rewrite Hidle. reflexivity. }
    assert (H2 : step Sender (with_sender (Send122 d) s) = Some (Tau, with_sender (Send124 d) s)).
    { unfold step, step_sender. destruct s; simpl in *. rewrite Hd, Hshape.
      destruct (decide (sh = sh)); [reflexivity|congruence]. }
    split.
    + rewrite exec_cons, H1. cbv beta iota. rewrite exec_cons, H2. reflexivity.
    + rewrite exec_cons, H1. cbv beta iota. rewrite exec_cons, H2. cbv beta iota.
      rewrite exec_cons, Hblock. reflexivity.
Qed.


Ltac exec_step H := rewrite exec_cons, H; cbv beta iota.

Lemma recv_unblocks sh t n tr s d :
  Inv sh t n tr s ->
  Z.of_nat (length (sent tr)) = Z.of_nat (length (received tr)) + n ->
  sender s = Send124 d -> receiver s = ReceiverIdle -> 0 < tokens s ->
  ack_drain s = Ack100 ->
  exists tr' s',
    exec (do_recv ++ [AckDrain; AckDrain; AckDrain]) s = Some (tr', s') /\
    permits s' = 1 /\
    exists s'', step Sender s' = Some (Tau, s'') /\
                sender s'' = Send125 d /\ permits s'' = 0.
Proof.
  intros HI Hfull Hsnd Hrcv Htok Hack.
  pose proof (credit _ _ _ _ _ HI) as Hcr.
  pose proof (inv_count _ _ _ _ _ HI) as Hcount.
  pose proof (holds_bounds s) as Hb. pose proof (inv_ack _ _ _ _ _ HI) as Hack0.
  pose proof (inv_req _ _ _ _ _ HI) as Hreq0.
  destruct (inv_sem _ _ _ _ _ HI) as (v & Hsem & Hv).
  destruct (inv_queue _ _ _ _ _ HI) as (q & Hq).
  pose proof (inv_dst_size _ _ _ _ _ HI) as Hsize.
  unfold permits, tokens, in_transit in Hcr, Htok, Hcount.
  rewrite Hsem, Hq, Hsnd, Hrcv, Hack in *.
  unfold CspRecvQueue.qsize in *. simpl in Hcr, Htok, Hcount.
  assert (v = 0) by lia. assert (Hak : ack s = 0) by lia. subst v.
  assert (Hn : 0 < n) by lia.
  assert (Hn0 : (n =? 0) = false) by (apply Z.eqb_neq; lia).
  assert (Hn1 : (n <=? 0) = false) by (apply Z.leb_gt; lia).
  destruct q as [|item rest]; [simpl in Htok; lia|].
  (* recv *)
  set (s1 := with_receiver Recv265 s).
  assert (H1 : step CallRecv s = Some (Tau, s1)).
  { unfold step. rewrite Hrcv. reflexivity. }
  set (s2 := with_receiver Recv266
               (with_dst (CspRecvPort.set_queue
                            (Some {| CspRecvQueue.maxsize := n; CspRecvQueue.queue := rest |})
                            (_dst_port s1)) s1)).
  assert (H2 : step Receiver s1 = Some (Tau, s2)).
  { unfold step, step_receiver. cbn. rewrite Hq. reflexivity. }
  assert (I2 : Inv sh t n ((tr ++ [Tau]) ++ [Tau]) s2).
  { eapply step_Inv; [|exact H2]. eapply step_Inv; [|exact H1]. exact HI. }
  destruct (copy_slot_Inv _ _ _ _ _ I2 (or_introl eq_refl)) as (x & _ & Hcopy).
  set (s3 := with_receiver (Recv267 (astype t x)) s2).
  assert (H3 : step Receiver s2 = Some (Tau, s3)).
  { unfold step, step_receiver. cbn [receiver s2 with_receiver]. rewrite Hcopy. reflexivity. }
  set (s4 := with_receiver (Recv268 (astype t x))
               (with_dst (CspRecvPort.set_idx
                            ((CspRecvPort._idx (_dst_port s3) + 1) mod n)
                            (_dst_port s3)) s3)).
  assert (H4 : step Receiver s3 = Some (Tau, s4)).
  { unfold step, step_receiver, advance. cbn. rewrite Hsize, Hn0. reflexivity. }
  set (s5 := with_receiver (Recv270 (astype t x)) (with_ack (ack s4 + 1) s4)).
  assert (H5 : step Receiver s4 = Some (Tau, s5)) by reflexivity.
  set (s6 := with_receiver ReceiverIdle s5).
  assert (H6 : step Receiver s5 = Some (RecvReturned (astype t x), s6)) by reflexivity.
  (* the acknowledge drain *)
  set (s7 := with_ack_drain Ack101 (with_ack 0 s6)).
  assert (H7 : step AckDrain s6 = Some (Tau, s7)).
  { unfold step, step_ack_drain. cbn. rewrite Hack, Hak. reflexivity. }
  set (s8 := with_ack_drain (Ack102 false) s7).
  assert (H8 : step AckDrain s7 = Some (Tau, s8)).
  { unfold step, step_ack_drain. cbn. rewrite Hsem. reflexivity. }
  set (s9 := with_ack_drain (Ack103 false)
               (with_src (CspSendPort.set_semaphore
                            (Some {| sem_value := 1; sem_initial := n |})
                            (_src_port s8)) s8)).
  assert (H9 : step AckDrain s8 = Some (Tau, s9)).
  { unfold step, step_ack_drain, sem_release. cbn. rewrite Hsem. cbn. rewrite Hn1. reflexivity. }
  exists [Tau; Tau; Tau; Tau; Tau; RecvReturned (astype t x); Tau; Tau; Tau], s9.
  split; [|split].
  - unfold do_recv. cbn [app].
    exec_step H1. exec_step H2. exec_step H3. exec_step H4. exec_step H5.
    exec_step H6. exec_step H7. exec_step H8. exec_step H9. reflexivity.
  - reflexivity.
  - eexists. split; [|split].
    + unfold step, step_sender. cbn. rewrite Hsnd. cbn. reflexivity.
    + reflexivity.
    + reflexivity.
Qed.


(** ** Peek *)

Lemma peek_steps_frame s e s' :
  receiver s = Peek257 \/ receiver s = Peek258 \/ (exists a, receiver s = Peek259 a) ->
  step Receiver s = Some (e, s') ->
  CspRecvPort._idx (_dst_port s') = CspRecvPort._idx (_dst_port s) /\
  ack s' = ack s /\ tokens s' = tokens s.
Proof.
  intros Hpc Hstep. unfold step, step_receiver in Hstep.
  destruct s as [src dst m rq ak ps pr pa pq]. simpl in *.
  destruct Hpc as [->|[->|[a ->]]].
  - destruct dst as [? ? ? ? ? ? ? ? [[mx q]|] ? ?]; simpl in *.
    + unfold queue_get, CspRecvQueue.get in Hstep. simpl in Hstep.
      destruct (CspRecvQueue.qsize _ =? 0); [discriminate|].
      unfold CspRecvQueue.take in Hstep. simpl in Hstep.
      destruct q as [|item rest]; injection Hstep as <- <-; unfold tokens; simpl; auto.
    + injection Hstep as <- <-. auto.
  - destruct (copy_slot dst m); injection Hstep as <- <-; auto.
  - injection Hstep as <- <-. auto.
Qed.

Lemma observed_peek_then t tr tr1 a mid e tr2 b :
  Forall (fun '(k, a) => delivered t tr k a) (observed 0 tr) ->
  tr = tr1 ++ [PeekReturned a] ++ mid ++ [e] ++ tr2 ->
  received mid = [] -> e = PeekReturned b \/ e = RecvReturned b -> a = b.
Proof.
  intros Hobs Htr Hmid He.
  rewrite Forall_forall in Hobs.
  assert (Ha : (length (received tr1), a) ∈ observed 0 tr).
  { rewrite Htr, observed_app. apply elem_of_app. right. simpl. left. }
  assert (Hb : (length (received tr1), b) ∈ observed 0 tr).
  { rewrite Htr, observed_app. apply elem_of_app. right. simpl. right.
    rewrite observed_app, Hmid. apply elem_of_app. right. simpl.
    rewrite Nat.add_0_r. destruct He as [-> | ->]; simpl; left. }
  apply Hobs in Ha, Hb. simpl in *. eapply delivered_unique; eassumption.
Qed.

(** C4: peek idempotence.  No statement of [peek] changes the receiver's
    [idx], the [ack] semaphore or the number of queued tokens; [peek]
    copies slot [idx] and returns the copy; and in every run of a started
    channel a [peek] and a later [peek] or [recv] with no [recv]
    returning in between return equal tensors. *)
Theorem peek_idempotence sh t n s0 tr s :
  started sh t n s0 -> reachable s0 tr s ->
  (forall e s',
     receiver s = Peek257 \/ receiver s = Peek258 \/
       (exists a, receiver s = Peek259 a) ->
     step Receiver s = Some (e, s') ->
     CspRecvPort._idx (_dst_port s') = CspRecvPort._idx (_dst_port s) /\
     ack s' = ack s /\ tokens s' = tokens s) /\
  (forall a, receiver s = Peek258 -> copy_slot (_dst_port s) (shm s) = Ok a ->
     exec [Receiver; Receiver] s
     = Some ([Tau; PeekReturned a], with_receiver ReceiverIdle s)) /\
  (forall tr1 a mid e tr2 b,
     tr = tr1 ++ [PeekReturned a] ++ mid ++ [e] ++ tr2 ->
     received mid = [] ->
     e = PeekReturned b \/ e = RecvReturned b ->
     a = b).
Proof.
  intros Hs Hr. split; [|split].
  - intros e s'. apply peek_steps_frame.
  - intros a Hpc Hcopy. simpl. unfold step_receiver. rewrite Hpc, Hcopy. simpl.
    destruct s; reflexivity.
  - intros tr1 a mid e tr2 b. apply (observed_peek_then t).
    exact (inv_observed _ _ _ _ _ (started_Inv _ _ _ _ _ _ Hs Hr)).
Qed.

Lemma peek_idempotence_witness :
  np_array int32 [1; 2; 3] = np_array int32 [1; 2; 3].
Proof.
  refine (proj2 (proj2 (peek_idempotence [3] int32 2 demo_state (fst (run round_trip))
           (snd (run round_trip)) demo_started _))
           (firstn 14 (fst (run round_trip))) (np_array int32 [1; 2; 3])
           (firstn 3 (skipn 15 (fst (run round_trip)))) (PeekReturned (np_array int32 [1; 2; 3]))
           (skipn 19 (fst (run round_trip))) (np_array int32 [1; 2; 3]) _ _ _).
  - apply run_reachable. vm_compute. discriminate.
  - vm_compute. reflexivity.
  - vm_compute. reflexivity.
  - left. reflexivity.
Defined.


(** ** Back-pressure, shape check, usage and construction *)

(** C3: capacity invariant and back-pressure.  In every reachable state
    of a started channel of capacity [n], the permits of the sender plus
    the tokens queued on the receiver plus the units in transit equal
    [n], and the units on the sender's side equal the free capacity.
    When [n] more tensors were sent than received, no permit is left:
    the sender's [probe] is false and the next [send] passes line 122
    and has no transition at line 124.  From there one [recv] and the
    acknowledge drain bring the permits to exactly one; the waiting
    [send] takes it and none is left. *)
Theorem capacity_back_pressure sh t n s0 tr s :
  started sh t n s0 -> reachable s0 tr s ->
  permits s + tokens s + in_transit s = n /\
  permits s + sender_holds (sender s) + ack s + ack_drain_holds (ack_drain s)
    = n - (Z.of_nat (length (sent tr)) - Z.of_nat (length (received tr))
           - returning (receiver s)) /\
  (Z.of_nat (length (sent tr)) = Z.of_nat (length (received tr)) + n ->
   returning (receiver s) = 0 ->
   permits s = 0 /\
   fst (CspSendPort.probe (_src_port s)) = Ok false /\
   (forall d, step Sender (with_sender (Send124 d) s) = None) /\
   (sender s = SenderIdle -> forall d, shape d = sh ->
      exec [CallSend d; Sender] s = Some ([Tau; Tau], with_sender (Send124 d) s) /\
      exec [CallSend d; Sender; Sender] s = None)) /\
  (Z.of_nat (length (sent tr)) = Z.of_nat (length (received tr)) + n ->
   forall d, sender s = Send124 d -> receiver s = ReceiverIdle ->
   0 < tokens s -> ack_drain s = Ack100 ->
   exists tr' s',
     exec (do_recv ++ [AckDrain; AckDrain; AckDrain]) s = Some (tr', s') /\
     permits s' = 1 /\
     exists s'', step Sender s' = Some (Tau, s'') /\
                 sender s'' = Send125 d /\ permits s'' = 0).
Proof.
  intros Hs Hr. pose proof (started_Inv _ _ _ _ _ _ Hs Hr) as HI.
  split; [exact (inv_count _ _ _ _ _ HI)|].
  split; [exact (credit _ _ _ _ _ HI)|].
  split.
  - apply (full_blocks _ _ _ _ _ HI).
  - intros Hfull d. apply (recv_unblocks _ _ _ _ _ _ HI Hfull).
Qed.

(** C2 (as amended): shape enforcement.  A [send] whose data has another
    shape than the port raises [AssertionError] at line 122, before any
    semaphore operation, and leaves the whole state as it was before the
    call (so [idx], the permits, [req], both ports and the result of
    [probe] are unchanged).  The dtype is not looked at: data of the
    right shape goes on to line 124 whatever its dtype. *)
Theorem send_shape_mismatch s d :
  sender s = SenderIdle ->
  (shape d <> CspSendPort._shape (_src_port s) ->
   exec [CallSend d; Sender] s = Some ([Tau; SendRaised AssertionError], s)) /\
  (shape d = CspSendPort._shape (_src_port s) ->
   exec [CallSend d; Sender] s = Some ([Tau; Tau], with_sender (Send124 d) s)).
Proof.
  intros Hidle. destruct s as [src dst m rq ak ps pr pa pq]. simpl in Hidle. subst ps.
  split; intros Hd; simpl in Hd; rewrite exec_cons; cbn [step sender]; cbv beta iota;
    rewrite exec_cons; unfold step, step_sender; cbn [sender with_sender _src_port];
    destruct (decide (shape d = CspSendPort._shape src)); try congruence; reflexivity.
Qed.

Lemma send_dtype_counterexample :
  dtype_ wide <> CspSendPort._dtype (_src_port demo_state) /\
  sent (fst (run (do_send wide))) = [wide] /\
  req demo_state = 0 /\ req (snd (run (do_send wide))) = 1 /\
  CspSendPort._idx (_src_port demo_state) = 0 /\
  CspSendPort._idx (_src_port (snd (run (do_send wide)))) = 1 /\
  permits demo_state = 2 /\ permits (snd (run (do_send wide))) = 1.
Proof. vm_compute. repeat split; discriminate. Qed.

Lemma send_start_again len p p1 :
  CspSendPort.start len p = (Ok (), p1) ->
  exists p2, CspSendPort.start len p1 = (Ok (), p2) /\
    CspSendPort._semaphore p2
    = Some {| sem_value := CspSendPort._size p; sem_initial := CspSendPort._size p |} /\
    CspSendPort.thread p2 = Some (S (CspSendPort.next_thread p)).
Proof.
  unfold CspSendPort.start.
  destruct (make_views _ _ _ _ _) as [views|e] eqn:Hv; [|discriminate].
  destruct (BoundedSemaphore_new _) as [sem|e] eqn:Hsem; [|discriminate].
  intros [= <-]. destruct p; simpl in *. rewrite Hv, Hsem.
  eexists. split; [reflexivity|]. simpl. split; [|reflexivity].
  unfold BoundedSemaphore_new in Hsem. destruct (_ <? 0); [discriminate|].
  congruence.
Qed.

Lemma recv_start_again len p p1 :
  CspRecvPort.start len p = (Ok (), p1) ->
  exists p2, CspRecvPort.start len p1 = (Ok (), p2) /\
    CspRecvPort._queue p2 = Some (CspRecvQueue.new (CspRecvPort._size p)) /\
    CspRecvPort.thread p2 = Some (S (CspRecvPort.next_thread p)).
Proof.
  unfold CspRecvPort.start.
  destruct (make_views _ _ _ _ _) as [views|e] eqn:Hv; [|discriminate].
  intros [= <-]. destruct p; simpl in *. rewrite Hv.
  eexists. split; [reflexivity|]. simpl. split; reflexivity.
Qed.

(** C8 (as amended): usage errors.  A second [start] on a port that was
    started does not fail: it succeeds again, with a fresh semaphore (or
    an empty queue) and one more drain thread.  [send] and [recv] on a
    port that was not started fail at once with [AttributeError], at
    their first use of the semaphore or the queue, and change nothing. *)
Theorem usage_errors :
  (forall len p p1, CspSendPort.start len p = (Ok (), p1) ->
     exists p2, CspSendPort.start len p1 = (Ok (), p2) /\
       CspSendPort._semaphore p2
       = Some {| sem_value := CspSendPort._size p;
                 sem_initial := CspSendPort._size p |} /\
       CspSendPort.thread p2 = Some (S (CspSendPort.next_thread p))) /\
  (forall len p p1, CspRecvPort.start len p = (Ok (), p1) ->
     exists p2, CspRecvPort.start len p1 = (Ok (), p2) /\
       CspRecvPort._queue p2 = Some (CspRecvQueue.new (CspRecvPort._size p)) /\
       CspRecvPort.thread p2 = Some (S (CspRecvPort.next_thread p))) /\
  (forall s d, sender s = SenderIdle ->
     CspSendPort._semaphore (_src_port s) = None ->
     shape d = CspSendPort._shape (_src_port s) ->
     exec [CallSend d; Sender; Sender] s
     = Some ([Tau; Tau; SendRaised AttributeError], s)) /\
  (forall s, receiver s = ReceiverIdle ->
     CspRecvPort._queue (_dst_port s) = None ->
     exec [CallRecv; Receiver] s = Some ([Tau; RecvRaised AttributeError], s)).
Proof.
  split; [exact send_start_again|]. split; [exact recv_start_again|]. split.
  - intros s d Hidle Hsem Hd. destruct s as [src dst m rq ak ps pr pa pq].
    simpl in *. subst ps. unfold step_sender. simpl.
    destruct (decide (shape d = CspSendPort._shape src)); [|congruence].
    simpl. rewrite Hsem. reflexivity.
  - intros s Hidle Hq. destruct s as [src dst m rq ak ps pr pa pq].
    simpl in *. subst pr. unfold step_receiver. simpl. rewrite Hq. reflexivity.
Qed.

Lemma start_twice_counterexample :
  CspSendPort.thread (_src_port demo_state) = Some 0%nat /\
  fst (CspSendPort.start (buf_len (shm demo_state)) (_src_port demo_state)) = Ok () /\
  CspRecvPort.thread (_dst_port demo_state) = Some 0%nat /\
  fst (CspRecvPort.start (buf_len (shm demo_state)) (_dst_port demo_state)) = Ok ().
Proof. vm_compute. repeat split. Qed.




(** ** The receive queue *)

Section QueueProofs.

Import CspRecvQueue.

Lemma wait_nonempty_waiting wakes q :
  queue q = [] -> Forall (eq []) wakes -> wait_nonempty wakes q = None.
Proof.
  intros Hq Hw. revert q Hq. induction Hw as [|w wakes <- _ IH]; intros q Hq;
    simpl; unfold qsize; rewrite Hq; simpl; [reflexivity|].
  apply IH. reflexivity.
Qed.

Lemma wait_nonempty_ready wakes mx item rest :
  wait_nonempty wakes {| maxsize := mx; queue := item :: rest |}
  = Some {| maxsize := mx; queue := item :: rest |}.
Proof. destruct wakes; reflexivity. Qed.

Lemma wait_until_ready endtime clock k wakes mx item rest :
  wait_until endtime clock k wakes {| maxsize := mx; queue := item :: rest |}
  = inr {| maxsize := mx; queue := item :: rest |}.
Proof. destruct wakes; reflexivity. Qed.

Lemma wait_nonempty_got pre item rest post q :
  queue q = [] -> Forall (eq []) pre ->
  wait_nonempty (pre ++ (item :: rest) :: post) q
  = Some {| maxsize := maxsize q; queue := item :: rest |}.
Proof.
  intros Hq Hw. revert q Hq. induction Hw as [|w pre <- _ IH]; intros q Hq;
    simpl; unfold qsize at 1; rewrite Hq; simpl.
  - apply wait_nonempty_ready.
  - rewrite IH by reflexivity. reflexivity.
Qed.

Lemma wait_until_expire endtime clock m : forall k wakes q,
  queue q = [] -> Forall (eq []) wakes -> (m <= length wakes)%nat ->
  (forall j, (k <= j < k + m)%nat -> clock j < endtime) ->
  endtime <= clock (k + m)%nat ->
  wait_until endtime clock k wakes q = inl (Raised Empty).
Proof.
  induction m as [|m IH]; intros k wakes q Hq Hw Hm Hlt Hge.
  - rewrite Nat.add_0_r in Hge.
    destruct wakes; simpl; unfold qsize; rewrite Hq; simpl;
      destruct (endtime - clock k <=? 0) eqn:E; try reflexivity;
      apply Z.leb_gt in E; lia.
  - destruct wakes as [|w wakes]; [simpl in Hm; lia|].
    inversion Hw as [|? ? <- Hw']; subst.
    simpl. unfold qsize at 1. rewrite Hq. simpl.
    destruct (endtime - clock k <=? 0) eqn:E.
    + apply Z.leb_le in E. specialize (Hlt k). lia.
    + apply IH; try assumption; try reflexivity.
      * simpl in Hm. lia.
      * intros j Hj. apply Hlt. lia.
      * replace (S k + m)%nat with (k + S m)%nat by lia. exact Hge.
Qed.

Lemma wait_until_waiting endtime clock wakes : forall k q,
  queue q = [] -> Forall (eq []) wakes ->
  (forall j, (k <= j <= k + length wakes)%nat -> clock j < endtime) ->
  wait_until endtime clock k wakes q = inl Waiting.
Proof.
  induction wakes as [|w wakes IH]; intros k q Hq Hw Hlt;
    simpl; unfold qsize at 1; rewrite Hq; simpl;
    (destruct (endtime - clock k <=? 0) eqn:E;
     [apply Z.leb_le in E; specialize (Hlt k); simpl in Hlt; lia|]).
  - reflexivity.
  - inversion Hw as [|? ? <- Hw']; subst. apply IH; try assumption; try reflexivity.
    intros j Hj. apply Hlt. simpl. lia.
Qed.

Lemma wait_until_got endtime clock pre item rest post : forall k q,
  queue q = [] -> Forall (eq []) pre ->
  (forall j, (k <= j <= k + length pre)%nat -> clock j < endtime) ->
  wait_until endtime clock k (pre ++ (item :: rest) :: post) q
  = inr {| maxsize := maxsize q; queue := item :: rest |}.
Proof.
  induction pre as [|w pre IH]; intros k q Hq Hw Hlt;
    simpl; unfold qsize at 1; rewrite Hq; simpl;
    (destruct (endtime - clock k <=? 0) eqn:E;
     [apply Z.leb_le in E; specialize (Hlt k); simpl in Hlt; lia|]).
  - apply wait_until_ready.
  - inversion Hw as [|? ? <- Hw']; subst. rewrite IH; try assumption; try reflexivity.
    intros j Hj. apply Hlt. simpl. lia.
Qed.

(** C7 (as amended): [get].  With [block=False] an empty queue raises
    [Empty] at once and a non-empty one gives its head, whatever the
    timeout, negative ones included.  With [block=True] and no timeout
    the call waits until the queue is not empty and never raises.  With
    [block=True] and [timeout >= 0] it raises [Empty] at the first clock
    reading that reaches [endtime] while the queue stayed empty, waits
    before that, and gives the head as soon as an item is there.  With
    [block=True] and [timeout < 0] it raises [ValueError]. *)
Theorem get_semantics :
  (forall timeout peek clock wakes q,
     queue q = [] -> get false timeout peek clock wakes q = Raised Empty) /\
  (forall timeout peek clock wakes mx item rest,
     get false timeout peek clock wakes {| maxsize := mx; queue := item :: rest |}
     = taken peek mx item rest) /\
  (forall peek clock wakes q,
     queue q = [] -> Forall (eq []) wakes ->
     get true None peek clock wakes q = Waiting) /\
  (forall peek clock pre item rest post q,
     queue q = [] -> Forall (eq []) pre ->
     get true None peek clock (pre ++ (item :: rest) :: post) q
     = taken peek (maxsize q) item rest) /\
  (forall peek clock wakes mx item rest,
     get true None peek clock wakes {| maxsize := mx; queue := item :: rest |}
     = taken peek mx item rest) /\
  (forall timeout peek clock wakes q (m : nat),
     0 <= timeout -> queue q = [] -> Forall (eq []) wakes ->
     (m <= length wakes)%nat ->
     (forall j, (1 <= j <= m)%nat -> clock j < clock 0%nat + timeout) ->
     clock 0%nat + timeout <= clock (S m) ->
     get true (Some timeout) peek clock wakes q = Raised Empty) /\
  (forall timeout peek clock wakes q,
     0 <= timeout -> queue q = [] -> Forall (eq []) wakes ->
     (forall j, (1 <= j <= S (length wakes))%nat -> clock j < clock 0%nat + timeout) ->
     get true (Some timeout) peek clock wakes q = Waiting) /\
  (forall timeout peek clock pre item rest post q,
     0 <= timeout -> queue q = [] -> Forall (eq []) pre ->
     (forall j, (1 <= j <= S (length pre))%nat -> clock j < clock 0%nat + timeout) ->
     get true (Some timeout) peek clock (pre ++ (item :: rest) :: post) q
     = taken peek (maxsize q) item rest) /\
  (forall timeout peek clock wakes mx item rest,
     0 <= timeout ->
     get true (Some timeout) peek clock wakes {| maxsize := mx; queue := item :: rest |}
     = taken peek mx item rest) /\
  (forall timeout peek clock wakes q,
     timeout < 0 -> get true (Some timeout) peek clock wakes q = Raised ValueError).
Proof.
  repeat split.
  - intros timeout peek clock wakes q Hq. unfold get, qsize. rewrite Hq. reflexivity.
  - intros timeout peek clock wakes mx item rest. unfold get, take, taken. simpl.
    destruct peek; reflexivity.
  - intros peek clock wakes q Hq Hw. unfold get. simpl.
    rewrite wait_nonempty_waiting by assumption. reflexivity.
  - intros peek clock pre item rest post q Hq Hw. unfold get. simpl.
    rewrite wait_nonempty_got by assumption. unfold take, taken. simpl.
    destruct peek; reflexivity.
  - intros peek clock wakes mx item rest. unfold get. simpl.
    rewrite wait_nonempty_ready. unfold take, taken. simpl.
    destruct peek; reflexivity.
  - intros timeout peek clock wakes q m Ht Hq Hw Hm Hlt Hge. unfold get. simpl.
    destruct (timeout <? 0) eqn:E; [apply Z.ltb_lt in E; lia|].
    rewrite (wait_until_expire _ clock m 1 wakes q); try assumption; try reflexivity.
    intros j Hj. apply Hlt. lia.
  - intros timeout peek clock wakes q Ht Hq Hw Hlt. unfold get. simpl.
    destruct (timeout <? 0) eqn:E; [apply Z.ltb_lt in E; lia|].
    rewrite wait_until_waiting; try assumption; try reflexivity.
  - intros timeout peek clock pre item rest post q Ht Hq Hw Hlt. unfold get. simpl.
    destruct (timeout <? 0) eqn:E; [apply Z.ltb_lt in E; lia|].
    rewrite wait_until_got; try assumption. unfold take, taken. simpl.
    destruct peek; reflexivity.
  - intros timeout peek clock wakes mx item rest Ht. unfold get. simpl.
    destruct (timeout <? 0) eqn:E; [apply Z.ltb_lt in E; lia|].
    rewrite wait_until_ready. unfold take, taken. simpl.
    destruct peek; reflexivity.
  - intros timeout peek clock wakes q Ht. unfold get. simpl.
    destruct (timeout <? 0) eqn:E; [reflexivity|apply Z.ltb_ge in E; lia].
Qed.

Lemma get_negative_timeout_counterexample :
  get false (Some (-1)) false (fun _ => 0) [] {| maxsize := 2; queue := [0] |}
  = Got 0 {| maxsize := 2; queue := [] |} /\
  get false (Some (-1)) false (fun _ => 0) [] {| maxsize := 2; queue := [] |}
  = Raised Empty.
Proof. split; reflexivity. Qed.

End QueueProofs.


(** ** The selector *)

Lemma port_set_observer_idem o p :
  port_set_observer o (port_set_observer o p) = port_set_observer o p.
Proof. destruct p as [p|p]; destruct p; reflexivity. Qed.

Lemma port_observer_set o p : port_observer (port_set_observer o p) = o.
Proof. destruct p as [p|p]; destruct p; reflexivity. Qed.

Section SelectorProofs.

Import CspSelector.

Context {V : Type}.
Implicit Types (args rest : list (nat * @action V)) (w : gmap nat port).

Lemma set_observer_lookup args o w ch :
  (ch ∈ listed args ->
   _set_observer args o w !! ch = port_set_observer o <$> w !! ch) /\
  (ch ∉ listed args -> _set_observer args o w !! ch = w !! ch).
Proof.
  unfold _set_observer, listed. revert w.
  induction args as [|[c a] args IH]; intros w.
  - split; [intros H; inversion H|reflexivity].
  - change (fst <$> (c, a) :: args) with (c :: (fst <$> args)).
    cbn [foldl]. destruct (IH (alter (port_set_observer o) c w)) as [IH1 IH2].
    destruct (decide (ch ∈ fst <$> args)) as [Hin|Hin]; split; intros H.
    + rewrite IH1 by exact Hin. rewrite lookup_alter.
      case_decide; [subst|reflexivity].
      destruct (w !! ch); simpl; [|reflexivity].
      rewrite port_set_observer_idem. reflexivity.
    + exfalso. apply H. right. exact Hin.
    + rewrite IH2 by exact Hin. rewrite lookup_alter.
      case_decide; [subst; reflexivity|].
      exfalso. inversion H; subst; contradiction.
    + rewrite IH2 by exact Hin. rewrite lookup_alter.
      case_decide; [subst|reflexivity]. exfalso. apply H. left.
Qed.

Lemma set_observer_observers args o w : observers_are o args (_set_observer args o w).
Proof.
  intros ch p Hin Hp. rewrite (proj1 (set_observer_lookup _ _ _ _) Hin) in Hp.
  destruct (w !! ch); [|discriminate]. injection Hp as <-. apply port_observer_set.
Qed.

Lemma port_probe_Ok p b p' : port_probe p = (Ok b, p') -> p' = p.
Proof.
  destruct p as [p|p]; simpl.
  - unfold CspSendPort.probe. destruct p as [? ? ? ? ? ? ? ? [[v i]|] ? ?]; simpl; [|discriminate].
    unfold sem_try_acquire, sem_release. simpl.
    destruct (0 <? v); simpl; [|intros [= <- <-]; reflexivity].
    destruct (i <=? v - 1); simpl; [discriminate|]. intros [= <- <-].
    unfold CspSendPort.set_semaphore. simpl.
    replace (v - 1 + 1) with v by lia. reflexivity.
  - intros [= _ <-]. reflexivity.
Qed.

Lemma port_probe_observer p r p' :
  port_probe p = (r, p') -> port_observer p' = port_observer p.
Proof.
  destruct p as [p|p]; simpl.
  - unfold CspSendPort.probe. destruct (CspSendPort._semaphore p) as [s|].
    + destruct (sem_try_acquire s) as [[] s1].
      * destruct (sem_release s1); intros [= _ <-]; reflexivity.
      * intros [= _ <-]. reflexivity.
    + intros [= _ <-]. reflexivity.
  - intros [= _ <-]. reflexivity.
Qed.

Lemma port_probe_set_observer o p :
  fst (port_probe (port_set_observer o p)) = fst (port_probe p).
Proof.
  destruct p as [p|p]; simpl; [|reflexivity].
  unfold CspSendPort.probe. destruct p as [? ? ? ? ? ? ? ? [s|] ? ?]; simpl; [|reflexivity].
  destruct (sem_try_acquire s) as [[] s1]; [|reflexivity].
  destruct (sem_release s1); reflexivity.
Qed.

Lemma probe_at_ready w ch b : ready_at w ch b -> probe_at w ch = (Ok b, w).
Proof.
  intros (p & Hp & Hb). unfold probe_at. rewrite Hp.
  destruct (port_probe p) as [r p'] eqn:E. simpl in Hb. subst r.
  apply port_probe_Ok in E. subst p'. rewrite insert_id by exact Hp. reflexivity.
Qed.

Lemma probe_at_observers o args w ch r w' :
  observers_are o args w -> probe_at w ch = (r, w') -> observers_are o args w'.
Proof.
  intros Hobs. unfold probe_at. destruct (w !! ch) as [p|] eqn:Hp.
  - destruct (port_probe p) as [r0 p'] eqn:E. intros [= _ <-].
    intros c pc Hin Hc. destruct (decide (ch = c)) as [->|Hne].
    + rewrite lookup_insert_eq in Hc. injection Hc as <-.
      rewrite (port_probe_observer _ _ _ E). eapply Hobs; eassumption.
    + rewrite lookup_insert_ne in Hc by exact Hne. eapply Hobs; eassumption.
  - intros [= _ <-]. exact Hobs.
Qed.

Lemma ready_at_set_observer args o w ch b :
  ready_at w ch b -> ready_at (_set_observer args o w) ch b.
Proof.
  intros (p & Hp & Hb). unfold ready_at.
  destruct (decide (ch ∈ listed args)) as [Hin|Hin].
  - rewrite (proj1 (set_observer_lookup _ _ _ _) Hin), Hp. simpl.
    eexists. split; [reflexivity|]. rewrite port_probe_set_observer. exact Hb.
  - rewrite (proj2 (set_observer_lookup _ _ _ _) Hin), Hp. eauto.
Qed.

Lemma scan_ready args pre ch act post w :
  (forall c a, (c, a) ∈ pre -> ready_at w c false) -> ready_at w ch true ->
  scan args (pre ++ (ch, act) :: post) w
  = inl (let '(r, w2) := act (_set_observer args None w) in ExitAction r w2).
Proof.
  intros Hpre Hch. induction pre as [|[c a] pre IH]; simpl.
  - rewrite (probe_at_ready _ _ _ Hch). destruct (act _). reflexivity.
  - rewrite (probe_at_ready w c false); [|eapply Hpre; left].
    apply IH. intros c' a' Hin. eapply Hpre. right. exact Hin.
Qed.

Lemma scan_none_ready args rest w :
  (forall c, c ∈ listed rest -> ready_at w c false) -> scan args rest w = inr w.
Proof.
  induction rest as [|[c a] rest IH]; intros H; simpl; [reflexivity|].
  rewrite (probe_at_ready w c false); [|apply H; left].
  apply IH. intros c' Hin. apply H. right. exact Hin.
Qed.

Lemma scan_exit_action args rest w r w2 :
  scan args rest w = inl (ExitAction r w2) ->
  exists w1 act, act ∈ (snd <$> rest) /\ observers_are None args w1 /\ act w1 = (r, w2).
Proof.
  revert w. induction rest as [|[c a] rest IH]; intros w; simpl; [discriminate|].
  destruct (probe_at w c) as [[[]|e] w1] eqn:E.
  - destruct (a (_set_observer args None w1)) as [r' w2'] eqn:Ha. intros [= <- <-].
    exists (_set_observer args None w1), a. split; [left|].
    split; [apply set_observer_observers|exact Ha].
  - intros H. destruct (IH _ H) as (w0 & act & Hin & Hobs & Hact).
    exists w0, act. split; [right; exact Hin|]. split; assumption.
  - discriminate.
Qed.

Lemma scan_observers o args rest w :
  observers_are o args w ->
  match scan args rest w with
  | inl (ExitProbe _ w') | inr w' => observers_are o args w'
  | inl (ExitAction _ _) => True
  | inl (ExitWait _ _) | inl (Blocked _) => False
  end.
Proof.
  revert w. induction rest as [|[c a] rest IH]; intros w Hobs; simpl; [exact Hobs|].
  destruct (probe_at w c) as [[[]|e] w1] eqn:E.
  - destruct (a _). exact I.
  - apply IH. eapply probe_at_observers; eassumption.
  - eapply probe_at_observers; eassumption.
Qed.

Lemma wait_loop_exit_action args env w r w2 :
  wait_loop args env w = ExitAction r w2 ->
  exists w1 act, act ∈ (snd <$> args) /\ observers_are None args w1 /\ act w1 = (r, w2).
Proof.
  revert w. induction env as [|[f|e] env IH]; intros w; simpl;
    destruct (scan args args w) as [x|w1] eqn:E; try discriminate;
    try (intros ->; eapply scan_exit_action; exact E).
  apply IH.
Qed.

(** C5: selector ordering.  When the port listed at position [i] is
    ready and every port listed before it is not, [select] returns what
    the action paired with it returns, whatever the waits would do (it
    does not wait); when no listed port is ready, the call waits. *)
Theorem select_order self env args w :
  (forall i ch act,
     args !! i = Some (ch, act) -> ready_at w ch true ->
     (forall j chj actj, (j < i)%nat -> args !! j = Some (chj, actj) ->
        ready_at w chj false) ->
     select self env args w
     = let '(r, w2) :=
         act (_set_observer args None
                (_set_observer args (Some (Changed self)) w)) in
       ExitAction r w2) /\
  ((forall ch, ch ∈ listed args -> ready_at w ch false) ->
   select self [] args w = Blocked (_set_observer args (Some (Changed self)) w)).
Proof.
  split.
  - intros i ch act Hi Hch Hpre.
    destruct (list_elem_of_split_length _ _ _ Hi) as (pre & post & Hargs & Hlen).
    unfold select.
    assert (Hscan : scan args args (_set_observer args (Some (Changed self)) w)
              = inl (let '(r, w2) := act (_set_observer args None
                       (_set_observer args (Some (Changed self)) w)) in ExitAction r w2)).
    { rewrite Hargs at 2. apply scan_ready.
      - intros c a Hin. apply ready_at_set_observer.
        apply list_elem_of_lookup in Hin. destruct Hin as [j Hj].
        apply (Hpre j c a).
        + apply lookup_lt_Some in Hj. rewrite Hlen. exact Hj.
        + rewrite Hargs. apply lookup_app_l_Some. exact Hj.
      - apply ready_at_set_observer. exact Hch. }
    destruct env as [|[f|e] env]; simpl; rewrite Hscan; reflexivity.
  - intros Hnone. unfold select. simpl.
    rewrite scan_none_ready; [reflexivity|].
    intros c Hc. apply ready_at_set_observer. apply Hnone. exact Hc.
Qed.


(** C6 (as amended): observers on exit.  When [select] ends through the
    action, with a value or with an exception of the action, the
    observers of all listed ports were set to [None] before the action
    ran.  When it ends with an exception of a port's [probe] or of the
    wait, they are not cleared: the callback installed on entry is still
    on every listed port. *)
Theorem select_exits self args w :
  (forall env v w2, select self env args w = ExitAction (Ok v) w2 ->
     exists w1 act, act ∈ (snd <$> args) /\ observers_are None args w1 /\
                    act w1 = (Ok v, w2)) /\
  (forall env e w2, select self env args w = ExitAction (Raise e) w2 ->
     exists w1 act, act ∈ (snd <$> args) /\ observers_are None args w1 /\
                    act w1 = (Raise e, w2)) /\
  (forall e w', select self [] args w = ExitProbe e w' ->
     observers_are (Some (Changed self)) args w') /\
  (forall e env e' w', select self (WaitRaises e :: env) args w = ExitWait e' w' ->
     e' = e /\ observers_are (Some (Changed self)) args w').
Proof.
  pose proof (scan_observers (Some (Changed self)) args args
                (_set_observer args (Some (Changed self)) w)
                (set_observer_observers _ _ _)) as Hscan.
  split; [|split; [|split]].
  - intros env v w2. apply wait_loop_exit_action.
  - intros env e w2. apply wait_loop_exit_action.
  - intros e w'. unfold select. simpl.
    destruct (scan args args _) as [x|w1]; [|discriminate]. intros ->. exact Hscan.
  - intros e env e' w'. unfold select. simpl.
    destruct (scan args args _) as [x|w1]; [intros ->; contradiction|].
    intros [= <- <-]. split; [reflexivity|exact Hscan].
Qed.

End SelectorProofs.


(** ** Scenarios *)

Lemma send_shape_mismatch_witness :
  exec [CallSend (np_array int32 [1; 2; 3; 4]); Sender] demo_state
  = Some ([Tau; SendRaised AssertionError], demo_state).
Proof.
  apply (proj1 (send_shape_mismatch demo_state (np_array int32 [1; 2; 3; 4]) eq_refl)).
  vm_compute. discriminate.
Defined.

Lemma capacity_back_pressure_witness :
  (permits (snd (run full_ring)) + tokens (snd (run full_ring))
   + in_transit (snd (run full_ring)) = 2) /\
  fst (CspSendPort.probe (_src_port (snd (run full_ring)))) = Ok false /\
  exists tr' s',
    exec (do_recv ++ [AckDrain; AckDrain; AckDrain]) (snd (run full_ring))
    = Some (tr', s') /\
    permits s' = 1 /\
    exists s'', step Sender s' = Some (Tau, s'') /\
                sender s'' = Send125 (np_array int32 [3; 3; 3]) /\ permits s'' = 0.
Proof.
  assert (Hr : reachable demo_state (fst (run full_ring)) (snd (run full_ring))).
  { apply run_reachable. vm_compute. discriminate. }
  destruct (capacity_back_pressure [3] int32 2 demo_state (fst (run full_ring))
              (snd (run full_ring)) demo_started Hr) as (H1 & _ & H3 & H4).
  split; [exact H1|]. split.
  - apply H3; vm_compute; reflexivity.
  - apply H4; vm_compute; reflexivity.
Defined.

Lemma get_semantics_witness :
  CspRecvQueue.get true (Some 15) false ticking [[]; []] (CspRecvQueue.new 2)
  = CspRecvQueue.Raised Empty.
Proof.
  refine (proj1 (proj2 (proj2 (proj2 (proj2 (proj2 get_semantics)))))
            15 false ticking [[]; []] (CspRecvQueue.new 2) 1%nat _ _ _ _ _ _).
  - lia.
  - reflexivity.
  - repeat constructor.
  - simpl. lia.
  - intros j Hj. assert (j = 1%nat) as -> by lia. vm_compute. reflexivity.
  - vm_compute. discriminate.
Defined.

Lemma usage_errors_witness :
  exec [CallSend (np_array int32 [1; 2; 3]); Sender; Sender] demo_fresh
  = Some ([Tau; Tau; SendRaised AttributeError], demo_fresh).
Proof.
  apply (proj1 (proj2 (proj2 usage_errors)) demo_fresh (np_array int32 [1; 2; 3]));
    reflexivity.
Defined.


Lemma select_order_witness :
  CspSelector.select 7 [] demo_args demo_world
  = let '(r, w2) :=
      constant 11 (CspSelector._set_observer demo_args None
                     (CspSelector._set_observer demo_args (Some (Changed 7)) demo_world)) in
    CspSelector.ExitAction r w2.
Proof.
  apply (proj1 (select_order 7 [] demo_args demo_world) 1%nat 1%nat (constant 11)).
  - reflexivity.
  - eexists. split; [reflexivity|]. reflexivity.
  - intros j chj actj Hj Hargs. destruct j as [|j]; [|lia].
    injection Hargs as <- <-. eexists. split; [reflexivity|]. reflexivity.
Defined.


Lemma select_exits_witness :
  CspSelector.observers_are (Some (Changed 7)) idle_args
    (CspSelector._set_observer idle_args (Some (Changed 7)) idle_world).
Proof.
  apply (proj1 (proj2 (proj2 (select_exits 7 idle_args idle_world))) AttributeError).
  vm_compute. reflexivity.
Defined.

Lemma select_probe_exception_counterexample :
  exists w' p,
    CspSelector.select 7 [] idle_args idle_world = CspSelector.ExitProbe AttributeError w' /\
    w' !! 0%nat = Some p /\ port_observer p = Some (Changed 7) /\
    ~ CspSelector.observers_are None idle_args w'.
Proof.
  eexists. eexists. split; [vm_compute; reflexivity|].
  split; [vm_compute; reflexivity|]. split; [reflexivity|].
  intros H. specialize (H 0%nat _ ltac:(left) eq_refl). discriminate.
Qed.


(** * Further properties *)

(** ** No failure on a started channel *)

(** The slot assignment of line 125 succeeds on a started channel. *)
Lemma write_slot_Inv sh t n tr s d :
  Inv sh t n tr s -> sender s = Send125 d ->
  write_slot (_src_port s) d (shm s)
  = Ok {| buf_len := buf_len (shm s);
          slots := <[Z.to_nat (CspSendPort._idx (_src_port s))
                     := wrap t <$> data d]> (slots (shm s)) |}.
Proof.
  intros HI Hpc. pose proof (holds_bounds s) as Hb.
  pose proof (inv_count _ _ _ _ _ HI) as Hc. pose proof (inv_req _ _ _ _ _ HI).
  pose proof (inv_ack _ _ _ _ _ HI).
  destruct (inv_sem _ _ _ _ _ HI) as (v & Hsem & Hv).
  destruct (inv_queue _ _ _ _ _ HI) as (q & Hq).
  unfold permits, tokens, in_transit, CspRecvQueue.qsize in Hc.
  rewrite Hsem, Hq, Hpc in *. simpl in Hc, Hb.
  assert (Hn : 0 < n) by lia.
  pose proof (inv_src_idx _ _ _ _ _ HI Hn) as Hidx. rewrite Hpc, Z.add_0_r in Hidx.
  pose proof (Z.mod_pos_bound (Z.of_nat (length (sent tr))) n Hn) as Hmod.
  pose proof (inv_sender_shape _ _ _ _ _ HI d) as Hshape. rewrite Hpc in Hshape.
  specialize (Hshape eq_refl).
  unfold write_slot. rewrite Hshape.
  destruct sh as [|d0 sh']; [exfalso; apply (inv_shape _ _ _ _ _ HI Hn); reflexivity|].
  rewrite (inv_src_array _ _ _ _ _ HI), Hidx, py_index_range by lia.
  rewrite (inv_src_dtype _ _ _ _ _ HI). reflexivity.
Qed.

Ltac close_quiet :=
  bool_props; simpl in *; subst; simpl in *;
  try (exfalso; lia); try (exfalso; congruence);
  repeat split; simpl; auto.

Ltac quiet_cases HI s Hstep :=
  start_inv HI s; unfold step in Hstep; unfold_ops; simpl in Hstep;
  split_step Hstep; close_quiet.

(** No statement of a started channel raises, except the shape test of
    [send], and no statement kills a drain thread. *)
Lemma step_quiet sh t n tr s l e s' :
  Inv sh t n tr s -> step l s = Some (e, s') ->
  quiet e /\ (ack_alive (ack_drain s) -> ack_alive (ack_drain s')) /\
  (req_alive (req_drain s) -> req_alive (req_drain s')).
Proof.
  intros HI Hstep. destruct l.
  3: { destruct (sender s) eqn:Hpc.
       4: { unfold step, step_sender in Hstep.
            rewrite Hpc, (write_slot_Inv _ _ _ _ _ _ HI Hpc) in Hstep.
            injection Hstep as <- <-. destruct s; repeat split; simpl; auto. }
       all: quiet_cases HI s Hstep. }
  6: { destruct (receiver s) eqn:Hpc.
       3, 8: destruct (copy_slot_Inv _ _ _ _ _ HI ltac:(rewrite Hpc; auto))
               as (x & _ & Hcopy);
             unfold step, step_receiver in Hstep; rewrite Hpc, Hcopy in Hstep;
             injection Hstep as <- <-; destruct s; repeat split; simpl; auto.
       all: quiet_cases HI s Hstep. }
  6: { destruct (ack_drain s) eqn:Hpc; quiet_cases HI s Hstep. }
  7: { destruct (req_drain s) eqn:Hpc; quiet_cases HI s Hstep. }
  all: quiet_cases HI s Hstep.
Qed.

Lemma reachable_induction (P : list event -> state -> Prop) s0 :
  P [] s0 ->
  (forall tr s l e s', reachable s0 tr s -> P tr s -> step l s = Some (e, s') ->
     P (tr ++ [e]) s') ->
  forall tr s, reachable s0 tr s -> P tr s.
Proof.
  intros H0 Hstep tr s [ls Hls]. revert tr s Hls.
  induction ls as [|l ls IH] using rev_ind; intros tr s Hls.
  - injection Hls as <- <-. exact H0.
  - rewrite exec_snoc in Hls.
    destruct (exec ls s0) as [[tr1 s1]|] eqn:E; [|discriminate].
    destruct (step l s1) as [[e s2]|] eqn:Hs; [|discriminate].
    injection Hls as <- <-. eapply Hstep; [|apply IH; reflexivity|exact Hs].
    exists ls. exact E.
Qed.



(** X2: on a started channel, under any schedule, no call on the receive
    port raises, and no call on the send port raises anything but the
    [AssertionError] of the shape test of [send] (line 123): [send]
    never fails in the slot assignment or the index arithmetic. *)
Theorem no_exception_on_started_channel sh t n s0 tr s :
  started sh t n s0 -> reachable s0 tr s -> Forall quiet tr.
Proof.
  intros Hs. revert tr s. apply reachable_induction.
  - constructor.
  - intros tr s l e s' Hr Hq Hstep. apply Forall_app. split; [exact Hq|].
    constructor; [|constructor].
    apply (step_quiet _ _ _ _ _ _ _ _ (started_Inv _ _ _ _ _ _ Hs Hr) Hstep).
Qed.

(** X3: ring indices.  On a started channel of positive capacity both
    [_idx] fields stay inside [0, size); between calls the send index is
    the number of completed sends modulo the capacity and the receive
    index the number of completed receives modulo the capacity, so that
    the two ports point to the same slot whenever as many tensors were
    received as were sent. *)
Theorem ring_indices sh t n s0 tr s :
  started sh t n s0 -> reachable s0 tr s -> 0 < n ->
  0 <= CspSendPort._idx (_src_port s) < n /\
  0 <= CspRecvPort._idx (_dst_port s) < n /\
  (sender s = SenderIdle ->
   CspSendPort._idx (_src_port s) = Z.of_nat (length (sent tr)) mod n) /\
  (receiver s = ReceiverIdle ->
   CspRecvPort._idx (_dst_port s) = Z.of_nat (length (received tr)) mod n) /\
  (sender s = SenderIdle -> receiver s = ReceiverIdle ->
   length (sent tr) = length (received tr) ->
   CspSendPort._idx (_src_port s) = CspRecvPort._idx (_dst_port s)).
Proof.
  intros Hs Hr Hn. pose proof (started_Inv _ _ _ _ _ _ Hs Hr) as HI.
  pose proof (inv_src_idx _ _ _ _ _ HI Hn) as H1.
  pose proof (inv_dst_idx _ _ _ _ _ HI Hn) as H2.
  split; [rewrite H1; apply Z.mod_pos_bound; exact Hn|].
  split; [rewrite H2; apply Z.mod_pos_bound; exact Hn|].
  split; [intros Hi; rewrite H1, Hi, Z.add_0_r; reflexivity|].
  split; [intros Hi; rewrite H2, Hi, Z.add_0_r; reflexivity|].
  intros Hi1 Hi2 Hlen. rewrite H1, H2, Hi1, Hi2, Hlen. reflexivity.
Qed.

(** X4: sends and receives balance.  Never more tensors are received
    than were sent; the sends that completed run ahead of the receives
    that returned by at most the capacity, plus one while a [recv] has
    released [ack] (line 268) and not yet returned (line 270).  When all
    tensors sent were received, nothing is announced or queued, the
    receive port's [probe] is [False], and every slot permit is with the
    sender's side. *)
Theorem send_recv_balance sh t n s0 tr s :
  started sh t n s0 -> reachable s0 tr s ->
  (length (received tr) <= length (sent tr))%nat /\
  Z.of_nat (length (sent tr)) - Z.of_nat (length (received tr))
    <= n + returning (receiver s) /\
  (length (sent tr) = length (received tr) ->
   req s = 0 /\ tokens s = 0 /\ CspRecvPort.probe (_dst_port s) = Ok false /\
   permits s + sender_holds (sender s) + ack s + ack_drain_holds (ack_drain s) = n).
Proof.
  intros Hs Hr. pose proof (started_Inv _ _ _ _ _ _ Hs Hr) as HI.
  pose proof (inv_count _ _ _ _ _ HI) as Hc. pose proof (holds_bounds s) as Hb.
  pose proof (inv_flow _ _ _ _ _ HI) as Hf.
  pose proof (inv_req _ _ _ _ _ HI). pose proof (inv_ack _ _ _ _ _ HI).
  destruct (inv_sem _ _ _ _ _ HI) as (v & Hsem & Hv).
  destruct (inv_queue _ _ _ _ _ HI) as (q & Hq).
  unfold permits, tokens, in_transit, CspRecvPort.probe, CspRecvQueue.qsize in *.
  rewrite Hsem, Hq in *. simpl in *.
  split; [lia|]. split; [lia|]. intros Hlen.
  assert (Hq0 : length q = 0%nat) by lia.
  repeat split; try lia. rewrite Hq0. reflexivity.
Qed.

(** X5: the slot being written is not the slot being read.  When [send]
    is about to assign its slot (line 125) while [recv] or [peek] is
    about to copy its slot (lines 266 and 258), the two ports point to
    different slots. *)
Theorem slot_exclusive sh t n s0 tr s d :
  started sh t n s0 -> reachable s0 tr s ->
  sender s = Send125 d -> receiver s = Recv266 \/ receiver s = Peek258 ->
  CspSendPort._idx (_src_port s) <> CspRecvPort._idx (_dst_port s).
Proof.
  intros Hs Hr Hsnd Hrcv. pose proof (started_Inv _ _ _ _ _ _ Hs Hr) as HI.
  pose proof (inv_count _ _ _ _ _ HI) as Hc. pose proof (holds_bounds s) as Hb.
  pose proof (inv_flow _ _ _ _ _ HI) as Hf. pose proof (inv_peek _ _ _ _ _ HI) as Hp.
  pose proof (inv_req _ _ _ _ _ HI). pose proof (inv_ack _ _ _ _ _ HI).
  destruct (inv_sem _ _ _ _ _ HI) as (v & Hsem & Hv).
  destruct (inv_queue _ _ _ _ _ HI) as (q & Hq).
  unfold permits, tokens, in_transit, CspRecvQueue.qsize in *.
  rewrite Hsem, Hq, Hsnd in *. simpl in *.
  assert (Hn : 0 < n) by lia.
  rewrite (inv_src_idx _ _ _ _ _ HI Hn), (inv_dst_idx _ _ _ _ _ HI Hn), Hsnd.
  intros Heq. symmetry in Heq. revert Heq.
  destruct Hrcv as [Hrcv|Hrcv]; rewrite Hrcv in *; simpl in *;
    apply mod_distinct; try lia.
  specialize (Hp eq_refl). lia.
Qed.

(** ** What arrives, and the probes *)

Lemma wrap_range t z : in_range t (wrap t z).
Proof.
  unfold in_range, wrap.
  destruct t; cbv [itemsize];
    repeat match goal with
    | |- context [2 ^ ?e] =>
        let v := eval vm_compute in (2 ^ e) in change (2 ^ e) with v
    end;
    match goal with
    | |- context [?a / 2] =>
        let v := eval vm_compute in (a / 2) in change (a / 2) with v
    end;
    match goal with
    | |- context [?x mod ?m] => pose proof (Z.mod_pos_bound x m ltac:(lia))
    end; lia.
Qed.

Lemma returned_observed tr a k :
  RecvReturned a ∈ tr \/ PeekReturned a ∈ tr -> exists j, (j, a) ∈ observed k tr.
Proof.
  revert k. induction tr as [|e tr IH]; intros k H.
  - destruct H as [H|H]; inversion H.
  - assert (Hcase : e = RecvReturned a \/ e = PeekReturned a \/
                    (RecvReturned a ∈ tr \/ PeekReturned a ∈ tr)).
    { destruct H as [H|H]; inversion H; subst; auto. }
    destruct Hcase as [->|[->|Hin]].
    + exists k. left.
    + exists k. left.
    + destruct e; simpl; try (apply IH; exact Hin).
      * destruct (IH (S k) Hin) as [j Hj]. exists j. right. exact Hj.
      * destruct (IH k Hin) as [j Hj]. exists j. right. exact Hj.
Qed.

(** X6: what [recv] and [peek] return.  Every tensor returned on a
    started channel has the channel's shape and dtype, and its elements
    lie in the range of that dtype, whatever was handed to [send]. *)
Theorem received_tensor_typed sh t n s0 tr s a :
  started sh t n s0 -> reachable s0 tr s ->
  RecvReturned a ∈ tr \/ PeekReturned a ∈ tr ->
  shape a = sh /\ dtype_ a = t /\ Forall (in_range t) (data a).
Proof.
  intros Hs Hr Ha. pose proof (started_Inv _ _ _ _ _ _ Hs Hr) as HI.
  destruct (returned_observed tr a 0 Ha) as [j Hj].
  pose proof (inv_observed _ _ _ _ _ HI) as Hobs. rewrite Forall_forall in Hobs.
  specialize (Hobs _ Hj). simpl in Hobs. destruct Hobs as (x & Hx & ->).
  split; [|split]; simpl.
  - exact (sent_lookup_shape _ _ _ _ (inv_sent_shape _ _ _ _ _ HI) Hx).
  - reflexivity.
  - apply Forall_fmap, Forall_forall. intros z _. apply wrap_range.
Qed.

(** A whole [recv] runs through as soon as a token is queued. *)
Lemma recv_completes sh t n tr s :
  Inv sh t n tr s -> receiver s = ReceiverIdle -> 0 < tokens s ->
  exists x s', sent tr !! length (received tr) = Some x /\
    exec do_recv s = Some ([Tau; Tau; Tau; Tau; Tau; RecvReturned (astype t x)], s') /\
    receiver s' = ReceiverIdle /\ tokens s' = tokens s - 1 /\ ack s' = ack s + 1.
Proof.
  intros HI Hrcv Htok.
  pose proof (inv_count _ _ _ _ _ HI) as Hcount.
  pose proof (holds_bounds s) as Hb. pose proof (inv_ack _ _ _ _ _ HI) as Hack0.
  pose proof (inv_req _ _ _ _ _ HI) as Hreq0.
  destruct (inv_sem _ _ _ _ _ HI) as (v & Hsem & Hv).
  destruct (inv_queue _ _ _ _ _ HI) as (q & Hq).
  pose proof (inv_dst_size _ _ _ _ _ HI) as Hsize.
  unfold permits, tokens, in_transit in Htok, Hcount |- *.
  rewrite Hsem, Hq, Hrcv in *.
  unfold CspRecvQueue.qsize in *. simpl in Htok, Hcount.
  assert (Hn : 0 < n) by lia.
  assert (Hn0 : (n =? 0) = false) by (apply Z.eqb_neq; lia).
  destruct q as [|item rest]; [simpl in Htok; lia|].
  set (s1 := with_receiver Recv265 s).
  assert (H1 : step CallRecv s = Some (Tau, s1)).
  { unfold step. rewrite Hrcv. reflexivity. }
  set (s2 := with_receiver Recv266
               (with_dst (CspRecvPort.set_queue
                            (Some {| CspRecvQueue.maxsize := n; CspRecvQueue.queue := rest |})
                            (_dst_port s1)) s1)).
  assert (H2 : step Receiver s1 = Some (Tau, s2)).
  { unfold step, step_receiver. cbn. rewrite Hq. reflexivity. }
  assert (I2 : Inv sh t n ((tr ++ [Tau]) ++ [Tau]) s2).
  { eapply step_Inv; [|exact H2]. eapply step_Inv; [|exact H1]. exact HI. }
  destruct (copy_slot_Inv _ _ _ _ _ I2 (or_introl eq_refl)) as (x & Hx & Hcopy).
  rewrite !received_snoc, !sent_snoc, !app_nil_r in Hx.
  set (s3 := with_receiver (Recv267 (astype t x)) s2).
  assert (H3 : step Receiver s2 = Some (Tau, s3)).
  { unfold step, step_receiver. cbn [receiver s2 with_receiver]. rewrite Hcopy. reflexivity. }
  set (s4 := with_receiver (Recv268 (astype t x))
               (with_dst (CspRecvPort.set_idx
                            ((CspRecvPort._idx (_dst_port s3) + 1) mod n)
                            (_dst_port s3)) s3)).
  assert (H4 : step Receiver s3 = Some (Tau, s4)).
  { unfold step, step_receiver, advance. cbn. rewrite Hsize, Hn0. reflexivity. }
  set (s5 := with_receiver (Recv270 (astype t x)) (with_ack (ack s4 + 1) s4)).
  assert (H5 : step Receiver s4 = Some (Tau, s5)) by reflexivity.
  set (s6 := with_receiver ReceiverIdle s5).
  assert (H6 : step Receiver s5 = Some (RecvReturned (astype t x), s6)) by reflexivity.
  exists x, s6. split; [exact Hx|]. split; [|split; [reflexivity|split]].
  - unfold do_recv. exec_step H1. exec_step H2. exec_step H3. exec_step H4.
    exec_step H5. exec_step H6. reflexivity.
  - cbn. lia.
  - reflexivity.
Qed.

(** X7: the receive port's [probe] keeps its promise.  On a started
    channel with no receive call in progress [probe] never raises; when
    it returns [True] a [recv] run next goes through without blocking and
    returns a tensor; when it returns [False], [recv] and [peek] block in
    [get] (lines 265 and 257). *)
Theorem recv_probe_meaning sh t n s0 tr s :
  started sh t n s0 -> reachable s0 tr s -> receiver s = ReceiverIdle ->
  (exists b, CspRecvPort.probe (_dst_port s) = Ok b) /\
  (CspRecvPort.probe (_dst_port s) = Ok true ->
   exists a s', exec do_recv s
                = Some ([Tau; Tau; Tau; Tau; Tau; RecvReturned a], s')) /\
  (CspRecvPort.probe (_dst_port s) = Ok false ->
   exec [CallRecv] s = Some ([Tau], with_receiver Recv265 s) /\
   exec [CallRecv; Receiver] s = None /\
   exec [CallPeek; Receiver] s = None).
Proof.
  intros Hs Hr Hrcv. pose proof (started_Inv _ _ _ _ _ _ Hs Hr) as HI.
  destruct (inv_queue _ _ _ _ _ HI) as (q & Hq).
  unfold CspRecvPort.probe. rewrite Hq. split; [eauto|]. split.
  - intros [= Hb]. apply Z.ltb_lt in Hb.
    destruct (recv_completes _ _ _ _ _ HI Hrcv) as (x & s' & _ & He & _).
    { unfold tokens. rewrite Hq. exact Hb. }
    eauto.
  - intros [= Hb]. apply Z.ltb_ge in Hb. unfold CspRecvQueue.qsize in Hb. simpl in Hb.
    destruct q; [|simpl in Hb; lia].
    assert (H1 : step CallRecv s = Some (Tau, with_receiver Recv265 s)).
    { unfold step. rewrite Hrcv. reflexivity. }
    assert (H1' : step CallPeek s = Some (Tau, with_receiver Peek257 s)).
    { unfold step. rewrite Hrcv. reflexivity. }
    assert (H2 : step Receiver (with_receiver Recv265 s) = None).
    { unfold step, step_receiver. cbn. rewrite Hq. reflexivity. }
    assert (H2' : step Receiver (with_receiver Peek257 s) = None).
    { unfold step, step_receiver. cbn. rewrite Hq. reflexivity. }
    split; [|split].
    + exec_step H1. reflexivity.
    + exec_step H1. rewrite exec_cons, H2. reflexivity.
    + exec_step H1'. rewrite exec_cons, H2'. reflexivity.
Qed.

(** A whole [send] runs through as soon as a permit is available. *)
Lemma send_completes sh t n tr s d :
  Inv sh t n tr s -> sender s = SenderIdle -> 0 < permits s -> shape d = sh ->
  exists s', exec (do_send d) s = Some ([Tau; Tau; Tau; Tau; Tau; SendReturned d], s') /\
    sender s' = SenderIdle /\ permits s' = permits s - 1 /\ req s' = req s + 1.
Proof.
  intros HI Hsnd Hperm Hd.
  pose proof (inv_count _ _ _ _ _ HI) as Hcount.
  pose proof (holds_bounds s) as Hb. pose proof (inv_ack _ _ _ _ _ HI) as Hack0.
  pose proof (inv_req _ _ _ _ _ HI) as Hreq0.
  destruct (inv_sem _ _ _ _ _ HI) as (v & Hsem & Hv).
  destruct (inv_queue _ _ _ _ _ HI) as (q & Hq).
  pose proof (inv_src_size _ _ _ _ _ HI) as Hsize.
  pose proof (inv_src_shape _ _ _ _ _ HI) as Hshape.
  unfold permits, tokens, in_transit in Hperm, Hcount |- *.
  rewrite Hsem, Hq, Hsnd in *.
  unfold CspRecvQueue.qsize in *. simpl in Hperm, Hcount.
  assert (Hn : 0 < n) by lia.
  assert (Hn0 : (n =? 0) = false) by (apply Z.eqb_neq; lia).
  assert (Hv0 : (0 <? v) = true) by (apply Z.ltb_lt; lia).
  set (s1 := with_sender (Send122 d) s).
  assert (H1 : step (CallSend d) s = Some (Tau, s1)).
  { unfold step. rewrite Hsnd. reflexivity. }
  set (s2 := with_sender (Send124 d) s1).
  assert (H2 : step Sender s1 = Some (Tau, s2)).
  { unfold step, step_sender. cbn. rewrite Hd, Hshape.
    destruct (decide (sh = sh)); [reflexivity|congruence]. }
  set (s3 := with_sender (Send125 d)
               (with_src (CspSendPort.set_semaphore
                            (Some {| sem_value := v - 1; sem_initial := n |})
                            (_src_port s2)) s2)).
  assert (H3 : step Sender s2 = Some (Tau, s3)).
  { unfold step, step_sender, sem_try_acquire. cbn. rewrite Hsem. cbn. rewrite Hv0.
    reflexivity. }
  assert (I3 : Inv sh t n (((tr ++ [Tau]) ++ [Tau]) ++ [Tau]) s3).
  { eapply step_Inv; [|exact H3]. eapply step_Inv; [|exact H2].
    eapply step_Inv; [|exact H1]. exact HI. }
  pose proof (write_slot_Inv _ _ _ _ _ _ I3 eq_refl) as Hwrite.
  set (m := {| buf_len := buf_len (shm s3);
               slots := <[Z.to_nat (CspSendPort._idx (_src_port s3))
                          := wrap t <$> data d]> (slots (shm s3)) |}) in Hwrite.
  set (s4 := with_sender (Send126 d) (with_shm m s3)).
  assert (H4 : step Sender s3 = Some (Tau, s4)).
  { unfold step, step_sender. cbn [sender s3 with_sender]. rewrite Hwrite. reflexivity. }
  set (s5 := with_sender (Send127 d)
               (with_src (CspSendPort.set_idx
                            ((CspSendPort._idx (_src_port s4) + 1) mod n)
                            (_src_port s4)) s4)).
  assert (H5 : step Sender s4 = Some (Tau, s5)).
  { unfold step, step_sender, advance. cbn. rewrite Hsize, Hn0. reflexivity. }
  set (s6 := with_sender SenderIdle (with_req (req s5 + 1) s5)).
  assert (H6 : step Sender s5 = Some (SendReturned d, s6)) by reflexivity.
  exists s6. split; [|split; [reflexivity|split; reflexivity]].
  unfold do_send. exec_step H1. exec_step H2. exec_step H3. exec_step H4.
  exec_step H5. exec_step H6. reflexivity.
Qed.

(** X8: the send port's [probe] keeps its promise.  On a started channel
    with no send call in progress [probe] never raises and leaves the
    port as it was: the permit taken at line 113 is given back at line
    115.  When it returns [True], a [send] of a tensor of the channel's
    shape run next goes through without blocking; when it returns
    [False], such a [send] blocks at line 124. *)
Theorem send_probe_meaning sh t n s0 tr s :
  started sh t n s0 -> reachable s0 tr s -> sender s = SenderIdle ->
  (exists b, CspSendPort.probe (_src_port s) = (Ok b, _src_port s)) /\
  (fst (CspSendPort.probe (_src_port s)) = Ok true ->
   (exists s', exec [CallSendProbe; Sender; Sender] s
               = Some ([Tau; Tau; SendProbeReturned true], s') /\
               permits s' = permits s) /\
   forall d, shape d = sh ->
     exists s', exec (do_send d) s
                = Some ([Tau; Tau; Tau; Tau; Tau; SendReturned d], s')) /\
  (fst (CspSendPort.probe (_src_port s)) = Ok false ->
   exec [CallSendProbe; Sender] s = Some ([Tau; SendProbeReturned false], s) /\
   forall d, shape d = sh -> exec [CallSend d; Sender; Sender] s = None).
Proof.
  intros Hs Hr Hsnd. pose proof (started_Inv _ _ _ _ _ _ Hs Hr) as HI.
  pose proof (inv_count _ _ _ _ _ HI) as Hcount.
  pose proof (holds_bounds s) as Hb. pose proof (inv_ack _ _ _ _ _ HI) as Hack0.
  pose proof (inv_req _ _ _ _ _ HI) as Hreq0.
  pose proof (inv_src_shape _ _ _ _ _ HI) as Hshape.
  destruct (inv_sem _ _ _ _ _ HI) as (v & Hsem & Hv).
  destruct (inv_queue _ _ _ _ _ HI) as (q & Hq).
  unfold permits, tokens, in_transit, CspRecvQueue.qsize in Hcount.
  rewrite Hsem, Hq, Hsnd in Hcount. simpl in Hcount.
  assert (Hprobe : CspSendPort.probe (_src_port s)
                   = (Ok (0 <? v), _src_port s)).
  { unfold CspSendPort.probe, sem_try_acquire, sem_release. rewrite Hsem. cbn.
    destruct (0 <? v) eqn:E; cbn; [|reflexivity]. apply Z.ltb_lt in E.
    destruct (n <=? v - 1) eqn:E'; cbn; [apply Z.leb_le in E'; lia|].
    replace (v - 1 + 1) with v by lia.
    destruct s as [src ? ? ? ? ? ? ? ?]. destruct src. simpl in Hsem |- *.
    rewrite Hsem. reflexivity. }
  rewrite Hprobe. cbn [fst snd]. split; [eauto|]. split.
  - intros [= Hb']. apply Z.ltb_lt in Hb'. split.
    + set (s1 := with_sender SendProbe113 s).
      assert (H1 : step CallSendProbe s = Some (Tau, s1)).
      { unfold step. rewrite Hsnd. reflexivity. }
      set (s2 := with_sender SendProbe115
                   (with_src (CspSendPort.set_semaphore
                                (Some {| sem_value := v - 1; sem_initial := n |})
                                (_src_port s1)) s1)).
      assert (H2 : step Sender s1 = Some (Tau, s2)).
      { unfold step, step_sender, sem_try_acquire. cbn. rewrite Hsem. cbn.
        destruct (0 <? v) eqn:E; [reflexivity|apply Z.ltb_ge in E; lia]. }
      set (s3 := with_sender SenderIdle
                   (with_src (CspSendPort.set_semaphore
                                (Some {| sem_value := v - 1 + 1; sem_initial := n |})
                                (_src_port s2)) s2)).
      assert (H3 : step Sender s2 = Some (SendProbeReturned true, s3)).
      { unfold step, step_sender, sem_release. cbn.
        destruct (n <=? v - 1) eqn:E; [apply Z.leb_le in E; lia|reflexivity]. }
      exists s3. split.
      * exec_step H1. exec_step H2. exec_step H3. reflexivity.
      * unfold permits. rewrite Hsem. cbn. lia.
    + intros d Hd. destruct (send_completes _ _ _ _ _ d HI Hsnd) as (s' & He & _).
      * unfold permits. rewrite Hsem. exact Hb'.
      * exact Hd.
      * eauto.
  - intros [= Hb']. apply Z.ltb_ge in Hb'. assert (v = 0) by lia. subst v. split.
    + assert (H1 : step CallSendProbe s = Some (Tau, with_sender SendProbe113 s)).
      { unfold step. rewrite Hsnd. reflexivity. }
      assert (H2 : step Sender (with_sender SendProbe113 s)
                   = Some (SendProbeReturned false, s)).
      { unfold step, step_sender, sem_try_acquire. cbn. rewrite Hsem. cbn.
        destruct s; simpl in Hsnd |- *; rewrite Hsnd; reflexivity. }
      exec_step H1. exec_step H2. reflexivity.
    + intros d Hd.
      assert (H1 : step (CallSend d) s = Some (Tau, with_sender (Send122 d) s)).
      { unfold step. rewrite Hsnd. reflexivity. }
      assert (H2 : step Sender (with_sender (Send122 d) s)
                   = Some (Tau, with_sender (Send124 d) s)).
      { unfold step, step_sender. cbn. rewrite Hd, Hshape.
        destruct (decide (sh = sh)); [|congruence]. destruct s; reflexivity. }
      assert (H3 : step Sender (with_sender (Send124 d) s) = None).
      { unfold step, step_sender. cbn. rewrite Hsem. reflexivity. }
      exec_step H1. exec_step H2. rewrite exec_cons, H3. reflexivity.
Qed.

(** ** After [join] *)

Ltac any_step s l Hstep :=
  break_state s; simpl in *; subst; destruct l;
  unfold step in Hstep; unfold_ops; simpl in Hstep; split_step Hstep;
  bool_props; simpl in *; subst; simpl in *.

Lemma step_after_ack_exit s l e s' :
  ack_drain s = AckFinished -> step l s = Some (e, s') ->
  ack_drain s' = AckFinished /\
  permits s' + sender_holds (sender s') + send_returned e
  <= permits s + sender_holds (sender s).
Proof.
  intros Hpc Hstep. unfold permits.
  any_step s l Hstep; split; try reflexivity; try discriminate; try lia.
Qed.

Lemma step_after_req_exit s l e s' :
  req_drain s = ReqFinished -> step l s = Some (e, s') ->
  req_drain s' = ReqFinished /\
  tokens s' + receiver_holds (receiver s') + returning (receiver s') + recv_returned e
  <= tokens s + receiver_holds (receiver s) + returning (receiver s).
Proof.
  intros Hpc Hstep. unfold tokens.
  any_step s l Hstep; split; try reflexivity; try discriminate;
    rewrite ?length_app; simpl; try lia;
    unfold CspRecvQueue.qsize in *;
    match goal with H : CspRecvQueue.queue _ = _ |- _ => rewrite H in *; simpl in * end;
    lia.
Qed.

Lemma sent_cons e tr :
  Z.of_nat (length (sent (e :: tr))) = send_returned e + Z.of_nat (length (sent tr)).
Proof.
  replace (sent (e :: tr))
    with (match e with SendReturned d => [d] | _ => [] end ++ sent tr)
    by (destruct e; reflexivity).
  rewrite length_app. destruct e; simpl length; simpl send_returned; lia.
Qed.

Lemma received_cons e tr :
  Z.of_nat (length (received (e :: tr))) = recv_returned e + Z.of_nat (length (received tr)).
Proof.
  replace (received (e :: tr))
    with (match e with RecvReturned a => [a] | _ => [] end ++ received tr)
    by (destruct e; reflexivity).
  rewrite length_app. destruct e; simpl length; simpl recv_returned; lia.
Qed.

Lemma sends_after_ack_drain_exit s ls tr s' :
  ack_drain s = AckFinished -> exec ls s = Some (tr, s') ->
  ack_drain s' = AckFinished /\
  permits s' + sender_holds (sender s') + Z.of_nat (length (sent tr))
  <= permits s + sender_holds (sender s).
Proof.
  revert s tr s'. induction ls as [|l ls IH]; intros s tr s' Hpc Hexec.
  - injection Hexec as <- <-. split; [exact Hpc|]. simpl. lia.
  - rewrite exec_cons in Hexec.
    destruct (step l s) as [[e s1]|] eqn:Hstep; [|discriminate].
    destruct (exec ls s1) as [[es s2]|] eqn:Hrest; [|discriminate].
    injection Hexec as <- <-.
    destruct (step_after_ack_exit _ _ _ _ Hpc Hstep) as [Hpc1 H1].
    destruct (IH _ _ _ Hpc1 Hrest) as [Hpc2 H2].
    split; [exact Hpc2|]. rewrite sent_cons. lia.
Qed.

Lemma recvs_after_req_drain_exit s ls tr s' :
  req_drain s = ReqFinished -> exec ls s = Some (tr, s') ->
  req_drain s' = ReqFinished /\
  tokens s' + receiver_holds (receiver s') + returning (receiver s')
    + Z.of_nat (length (received tr))
  <= tokens s + receiver_holds (receiver s) + returning (receiver s).
Proof.
  revert s tr s'. induction ls as [|l ls IH]; intros s tr s' Hpc Hexec.
  - injection Hexec as <- <-. split; [exact Hpc|]. simpl. lia.
  - rewrite exec_cons in Hexec.
    destruct (step l s) as [[e s1]|] eqn:Hstep; [|discriminate].
    destruct (exec ls s1) as [[es s2]|] eqn:Hrest; [|discriminate].
    injection Hexec as <- <-.
    destruct (step_after_req_exit _ _ _ _ Hpc Hstep) as [Hpc1 H1].
    destruct (IH _ _ _ Hpc1 Hrest) as [Hpc2 H2].
    split; [exact Hpc2|]. rewrite received_cons. lia.
Qed.

(** X9: a channel whose drain has exited runs dry.  Once [_ack_callback]
    has left its loop ([_done] seen at line 99, or [EOFError] at line
    105) it stays out, and no permit comes back: however the run goes
    on, the sends that still complete are at most the permits left plus
    the one a running [send] holds.  Likewise, once [_req_callback] has
    left its loop, the receives that still return are at most the tokens
    queued plus the one a running [recv] holds. *)
Theorem traffic_after_drain_exit s ls tr s' :
  exec ls s = Some (tr, s') ->
  (ack_drain s = AckFinished ->
   ack_drain s' = AckFinished /\
   permits s' + sender_holds (sender s') + Z.of_nat (length (sent tr))
   <= permits s + sender_holds (sender s)) /\
  (req_drain s = ReqFinished ->
   req_drain s' = ReqFinished /\
   tokens s' + receiver_holds (receiver s') + returning (receiver s')
     + Z.of_nat (length (received tr))
   <= tokens s + receiver_holds (receiver s) + returning (receiver s)).
Proof.
  intros Hexec. split; intros Hpc.
  - eapply sends_after_ack_drain_exit; eassumption.
  - eapply recvs_after_req_drain_exit; eassumption.
Qed.

Lemma step_after_send_join s l e s' :
  CspSendPort._done (_src_port s) = true -> step l s = Some (e, s') ->
  CspSendPort._done (_src_port s') = true /\
  permits s' + sender_holds (sender s') + ack_drain_owes (ack_drain s') + send_returned e
  <= permits s + sender_holds (sender s) + ack_drain_owes (ack_drain s).
Proof.
  intros Hd Hstep. unfold permits.
  any_step s l Hstep; split; try reflexivity; try discriminate; try lia.
Qed.

Lemma step_after_recv_join s l e s' :
  CspRecvPort._done (_dst_port s) = true -> step l s = Some (e, s') ->
  CspRecvPort._done (_dst_port s') = true /\
  tokens s' + receiver_holds (receiver s') + returning (receiver s')
    + req_drain_owes (req_drain s') + recv_returned e
  <= tokens s + receiver_holds (receiver s) + returning (receiver s)
     + req_drain_owes (req_drain s).
Proof.
  intros Hd Hstep. unfold tokens.
  any_step s l Hstep; split; try reflexivity; try discriminate;
    rewrite ?length_app; simpl; try lia;
    unfold CspRecvQueue.qsize in *;
    match goal with H : CspRecvQueue.queue _ = _ |- _ => rewrite H in *; simpl in * end;
    lia.
Qed.

Lemma sends_after_join s ls tr s' :
  CspSendPort._done (_src_port s) = true -> exec ls s = Some (tr, s') ->
  CspSendPort._done (_src_port s') = true /\
  permits s' + sender_holds (sender s') + ack_drain_owes (ack_drain s')
    + Z.of_nat (length (sent tr))
  <= permits s + sender_holds (sender s) + ack_drain_owes (ack_drain s).
Proof.
  revert s tr s'. induction ls as [|l ls IH]; intros s tr s' Hd Hexec.
  - injection Hexec as <- <-. split; [exact Hd|]. simpl. lia.
  - rewrite exec_cons in Hexec.
    destruct (step l s) as [[e s1]|] eqn:Hstep; [|discriminate].
    destruct (exec ls s1) as [[es s2]|] eqn:Hrest; [|discriminate].
    injection Hexec as <- <-.
    destruct (step_after_send_join _ _ _ _ Hd Hstep) as [Hd1 H1].
    destruct (IH _ _ _ Hd1 Hrest) as [Hd2 H2].
    split; [exact Hd2|]. rewrite sent_cons. lia.
Qed.

Lemma recvs_after_join s ls tr s' :
  CspRecvPort._done (_dst_port s) = true -> exec ls s = Some (tr, s') ->
  CspRecvPort._done (_dst_port s') = true /\
  tokens s' + receiver_holds (receiver s') + returning (receiver s')
    + req_drain_owes (req_drain s') + Z.of_nat (length (received tr))
  <= tokens s + receiver_holds (receiver s) + returning (receiver s)
     + req_drain_owes (req_drain s).
Proof.
  revert s tr s'. induction ls as [|l ls IH]; intros s tr s' Hd Hexec.
  - injection Hexec as <- <-. split; [exact Hd|]. simpl. lia.
  - rewrite exec_cons in Hexec.
    destruct (step l s) as [[e s1]|] eqn:Hstep; [|discriminate].
    destruct (exec ls s1) as [[es s2]|] eqn:Hrest; [|discriminate].
    injection Hexec as <- <-.
    destruct (step_after_recv_join _ _ _ _ Hd Hstep) as [Hd1 H1].
    destruct (IH _ _ _ Hd1 Hrest) as [Hd2 H2].
    split; [exact Hd2|]. rewrite received_cons. lia.
Qed.

(** X10: [join] is final and lets a drain finish at most the round it is
    in.  [_done] is never reset.  After [join] on the send port the drain
    gives back at most what it owes: the permit of its round (it tests
    [_done] at line 99 only, so a drain waiting at line 100 still serves
    one acknowledgement) and the permit its own [probe] holds between
    lines 113 and 115.  The sends that still complete are at most the
    permits left, plus the one a running [send] holds, plus what the
    drain owes.  The same holds for [join] on the receive port, with
    tokens and receives. *)
Theorem traffic_after_join s ls tr s' :
  exec ls s = Some (tr, s') ->
  (CspSendPort._done (_src_port s) = true ->
   CspSendPort._done (_src_port s') = true /\
   permits s' + sender_holds (sender s') + ack_drain_owes (ack_drain s')
     + Z.of_nat (length (sent tr))
   <= permits s + sender_holds (sender s) + ack_drain_owes (ack_drain s)) /\
  (CspRecvPort._done (_dst_port s) = true ->
   CspRecvPort._done (_dst_port s') = true /\
   tokens s' + receiver_holds (receiver s') + returning (receiver s')
     + req_drain_owes (req_drain s') + Z.of_nat (length (received tr))
   <= tokens s + receiver_holds (receiver s) + returning (receiver s)
      + req_drain_owes (req_drain s)).
Proof.
  intros Hexec. split; intros Hd.
  - eapply sends_after_join; eassumption.
  - eapply recvs_after_join; eassumption.
Qed.

(** ** Every outcome of [get] *)

Section QueueOutcome.

Import CspRecvQueue.

Lemma qsize_zero q : (qsize q =? 0) = true <-> queue q = [].
Proof.
  unfold qsize. rewrite Z.eqb_eq. destruct (queue q); simpl; [tauto|].
  split; [lia|discriminate].
Qed.

Lemma wait_nonempty_result wakes : forall q,
  match wait_nonempty wakes q with
  | Some q' => maxsize q' = maxsize q /\ queue q' <> [] /\
               queue q' ∈ queue q :: wakes
  | None => queue q = [] /\ Forall (eq []) wakes
  end.
Proof.
  induction wakes as [|w wakes IH]; intros q; simpl;
    destruct (qsize q =? 0) eqn:E.
  - apply qsize_zero in E. auto.
  - split; [reflexivity|]. split; [|left].
    intros H. apply qsize_zero in H. congruence.
  - apply qsize_zero in E. specialize (IH (with_queue w q)).
    destruct (wait_nonempty wakes (with_queue w q)) as [q'|].
    + destruct IH as (Hm & Hne & Hin). split; [exact Hm|]. split; [exact Hne|].
      right. exact Hin.
    + destruct IH as [Hw Hall]. split; [exact E|]. constructor; [|exact Hall].
      symmetry. exact Hw.
  - split; [reflexivity|]. split; [|left].
    intros H. apply qsize_zero in H. congruence.
Qed.

Lemma wait_until_result endtime clock wakes : forall k q,
  match wait_until endtime clock k wakes q with
  | inr q' => maxsize q' = maxsize q /\ queue q' <> [] /\
              queue q' ∈ queue q :: wakes
  | inl Waiting => queue q = [] /\ Forall (eq []) wakes
  | inl (Raised e) => e = Empty /\ queue q = []
  | inl (Got _ _) => False
  end.
Proof.
  induction wakes as [|w wakes IH]; intros k q; simpl;
    destruct (qsize q =? 0) eqn:E.
  - apply qsize_zero in E. destruct (endtime - clock k <=? 0); auto.
  - split; [reflexivity|]. split; [|left].
    intros H. apply qsize_zero in H. congruence.
  - apply qsize_zero in E. destruct (endtime - clock k <=? 0); [auto|].
    specialize (IH (S k) (with_queue w q)).
    destruct (wait_until endtime clock (S k) wakes (with_queue w q)) as [[item q'|e|]|q'].
    + exact IH.
    + destruct IH as [-> _]. auto.
    + destruct IH as [Hw Hall]. split; [exact E|]. constructor; [|exact Hall].
      symmetry. exact Hw.
    + destruct IH as (Hm & Hne & Hin). split; [exact Hm|]. split; [exact Hne|].
      right. exact Hin.
  - split; [reflexivity|]. split; [|left].
    intros H. apply qsize_zero in H. congruence.
Qed.

Lemma take_result peek q :
  queue q <> [] ->
  exists item rest, queue q = item :: rest /\
    take peek q = Got item (if peek then q else with_queue rest q).
Proof.
  intros Hne. unfold take. destruct (queue q) as [|item rest]; [congruence|].
  exists item, rest. split; [reflexivity|]. destruct peek; reflexivity.
Qed.

(** X11: every outcome of [get].  An item returned is the head of the
    first non-empty contents the call found, the queue at entry or the
    queue at a return of [wait()]; with [peek] those contents stay,
    without it exactly the head is removed; [maxsize] is kept.  The call
    raises nothing but [Empty], and then the queue was empty at entry,
    or [ValueError], for a blocking call with a negative timeout: the
    subscript of line 160 never fails.  It is left waiting only when
    blocking and every contents it found was empty. *)
Theorem get_outcome block timeout peek clock wakes q :
  match get block timeout peek clock wakes q with
  | Got item q' =>
      maxsize q' = maxsize q /\
      exists contents rest,
        contents ∈ queue q :: wakes /\ contents = item :: rest /\
        queue q' = if peek then contents else rest
  | Raised e =>
      (e = Empty /\ queue q = [] /\
       (block = false \/ exists t, timeout = Some t /\ 0 <= t)) \/
      (e = ValueError /\ block = true /\ exists t, timeout = Some t /\ t < 0)
  | Waiting =>
      block = true /\ queue q = [] /\ Forall (eq []) wakes /\
      (timeout = None \/ exists t, timeout = Some t /\ 0 <= t)
  end.
Proof.
  unfold get. destruct block; simpl.
  - destruct timeout as [t|].
    + destruct (t <? 0) eqn:Ht.
      * apply Z.ltb_lt in Ht. right. eauto.
      * apply Z.ltb_ge in Ht.
        pose proof (wait_until_result (clock 0%nat + t) clock wakes 1 q) as H.
        destruct (wait_until _ _ _ _ _) as [[item q'|e|]|q'].
        -- contradiction.
        -- destruct H as [-> Hq]. left. eauto 10.
        -- destruct H as [Hq Hall]. eauto 10.
        -- destruct H as (Hm & Hne & Hin).
           destruct (take_result peek q' Hne) as (item & rest & Hq' & ->).
           destruct peek; simpl.
           ++ split; [exact Hm|]. exists (item :: rest), rest.
              rewrite <- Hq'. auto.
           ++ split; [exact Hm|]. exists (item :: rest), rest.
              rewrite <- Hq'. auto.
    + pose proof (wait_nonempty_result wakes q) as H.
      destruct (wait_nonempty wakes q) as [q'|].
      * destruct H as (Hm & Hne & Hin).
        destruct (take_result peek q' Hne) as (item & rest & Hq' & ->).
        destruct peek; simpl.
        -- split; [exact Hm|]. exists (item :: rest), rest.
           rewrite <- Hq'. auto.
        -- split; [exact Hm|]. exists (item :: rest), rest.
           rewrite <- Hq'. auto.
      * destruct H as [Hq Hall]. auto.
  - destruct (qsize q =? 0) eqn:E.
    + apply qsize_zero in E. left. auto.
    + assert (Hne : queue q <> []).
      { intros H. apply qsize_zero in H. congruence. }
      destruct (take_result peek q Hne) as (item & rest & Hq' & ->).
      destruct peek; simpl.
      * split; [reflexivity|]. exists (item :: rest), rest.
        rewrite <- Hq'. split; [left|]. auto.
      * split; [reflexivity|]. exists (item :: rest), rest.
        rewrite <- Hq'. split; [left|]. auto.
Qed.

End QueueOutcome.

(** ** Soundness of [select] *)

Section SelectorSound.

Import CspSelector.

Context {V : Type}.
Implicit Types (args rest : list (nat * @action V)) (w : gmap nat port).

Lemma probe_at_Ok w ch b w1 :
  probe_at w ch = (Ok b, w1) -> w1 = w /\ ready_at w ch b.
Proof.
  unfold probe_at. destruct (w !! ch) as [p|] eqn:Hp; [|discriminate].
  destruct (port_probe p) as [r p'] eqn:E. intros [= -> <-].
  pose proof (port_probe_Ok _ _ _ E) as ->.
  split; [apply insert_id; exact Hp|].
  exists p. split; [exact Hp|]. rewrite E. reflexivity.
Qed.

Lemma scan_sound args rest w :
  match scan args rest w with
  | inl (ExitAction r w2) =>
      exists pre ch act post,
        rest = pre ++ (ch, act) :: post /\
        (forall c, c ∈ listed pre -> ready_at w c false) /\
        ready_at w ch true /\
        act (_set_observer args None w) = (r, w2)
  | inl (ExitProbe e w') =>
      exists pre ch act post,
        rest = pre ++ (ch, act) :: post /\
        (forall c, c ∈ listed pre -> ready_at w c false) /\
        probe_at w ch = (Raise e, w')
  | inl (ExitWait _ _) | inl (Blocked _) => False
  | inr w' => w' = w /\ forall c, c ∈ listed rest -> ready_at w c false
  end.
Proof.
  induction rest as [|[c a] rest IH]; simpl.
  - split; [reflexivity|]. intros c H. inversion H.
  - destruct (probe_at w c) as [[[]|e] w1] eqn:E.
    + destruct (probe_at_Ok _ _ _ _ E) as [-> Hc].
      destruct (a (_set_observer args None w)) as [r w2] eqn:Ha.
      exists [], c, a, rest. split; [reflexivity|]. split; [|auto].
      intros c' H. inversion H.
    + destruct (probe_at_Ok _ _ _ _ E) as [-> Hc].
      destruct (scan args rest w) as [[r w2|e w'|e w'|w']|w'].
      * destruct IH as (pre & ch & act & post & -> & Hpre & Hch & Hact).
        exists ((c, a) :: pre), ch, act, post. split; [reflexivity|].
        split; [|auto]. intros c' H.
        change (listed ((c, a) :: pre)) with (c :: listed pre) in H.
        apply elem_of_cons in H as [->|H]; auto.
      * destruct IH as (pre & ch & act & post & -> & Hpre & Hch).
        exists ((c, a) :: pre), ch, act, post. split; [reflexivity|].
        split; [|auto]. intros c' H.
        change (listed ((c, a) :: pre)) with (c :: listed pre) in H.
        apply elem_of_cons in H as [->|H]; auto.
      * exact IH.
      * exact IH.
      * destruct IH as [-> Hrest]. split; [reflexivity|]. intros c' H.
        change (listed ((c, a) :: rest)) with (c :: listed rest) in H.
        apply elem_of_cons in H as [->|H]; auto.
    + exists [], c, a, rest. split; [reflexivity|]. split; [|exact E].
      intros c' H. inversion H.
Qed.

(** X12: [select] runs the action of a ready port only.  When a call
    ends through an action, that action is paired with a listed port
    whose [probe] returned [True] in the same pass in which every port
    listed before it returned [False], and it ran with the observers
    cleared.  When it ends with an exception of [probe], the ports
    listed before the failing one were not ready.  When it ends in the
    wait, raising or still blocked, no listed port was ready in the last
    pass. *)
Theorem select_sound self env args w :
  match select self env args w with
  | ExitAction r w2 =>
      exists pre ch act post w0,
        args = pre ++ (ch, act) :: post /\
        (forall c, c ∈ listed pre -> ready_at w0 c false) /\
        ready_at w0 ch true /\
        act (_set_observer args None w0) = (r, w2)
  | ExitProbe e w' =>
      exists pre ch act post w0,
        args = pre ++ (ch, act) :: post /\
        (forall c, c ∈ listed pre -> ready_at w0 c false) /\
        probe_at w0 ch = (Raise e, w')
  | ExitWait e w' =>
      WaitRaises e ∈ env /\ forall c, c ∈ listed args -> ready_at w' c false
  | Blocked w' =>
      (forall e, WaitRaises e ∉ env) /\
      forall c, c ∈ listed args -> ready_at w' c false
  end.
Proof.
  unfold select. generalize (_set_observer args (Some (Changed self)) w).
  induction env as [|[f|e] env IH]; intros w0; simpl;
    pose proof (scan_sound args args w0) as H;
    destruct (scan args args w0) as [[r w2|e' w'|e' w'|w']|w'];
    try contradiction.
  - destruct H as (pre & ch & act & post & H). exists pre, ch, act, post, w0. exact H.
  - destruct H as (pre & ch & act & post & H). exists pre, ch, act, post, w0. exact H.
  - destruct H as [-> H]. split; [|exact H]. intros e He. inversion He.
  - destruct H as (pre & ch & act & post & H). exists pre, ch, act, post, w0. exact H.
  - destruct H as (pre & ch & act & post & H). exists pre, ch, act, post, w0. exact H.
  - specialize (IH (f w')).
    destruct (wait_loop args env (f w')) as [r w2|e' w2|e' w2|w2].
    + exact IH.
    + exact IH.
    + destruct IH as [Hin Hr]. split; [right; exact Hin|exact Hr].
    + destruct IH as [Hin Hr]. split; [|exact Hr].
      intros e' He. apply elem_of_cons in He as [He|He]; [discriminate|].
      eapply Hin. exact He.
  - destruct H as (pre & ch & act & post & H). exists pre, ch, act, post, w0. exact H.
  - destruct H as (pre & ch & act & post & H). exists pre, ch, act, post, w0. exact H.
  - destruct H as [-> H]. split; [left|exact H].
Qed.

End SelectorSound.

(** ** Starting the ports *)

Lemma product_nonneg sh : Forall (fun d => 0 <= d) sh -> 0 <= product sh.
Proof.
  induction 1 as [|d sh Hd _ IH]; simpl; [lia|]. apply Z.mul_nonneg_nonneg; assumption.
Qed.

Lemma forallb_nonneg sh :
  Forall (fun d => 0 <= d) sh -> forallb (fun d => 0 <=? d) sh = true.
Proof.
  induction 1 as [|d sh Hd _ IH]; simpl; [reflexivity|].
  rewrite IH. apply Z.leb_le in Hd. rewrite Hd. reflexivity.
Qed.

Lemma make_views_all len sh t nb l :
  (forall i, i ∈ l -> make_view len sh t nb i = Ok i) ->
  make_views len sh t nb l = Ok l.
Proof.
  induction l as [|i l IH]; intros H; simpl; [reflexivity|].
  rewrite (H i) by left. rewrite IH; [reflexivity|].
  intros j Hj. apply H. right. exact Hj.
Qed.

(** A view that fits: slot [i] of [n] in a region of at least [z * n]
    bytes. *)
Lemma make_view_fits len sh t n (i : nat) :
  Forall (fun d => 0 <= d) sh -> Z.of_nat i < n ->
  itemsize t * product sh * n <= len ->
  make_view len sh t (NInt (itemsize t * product sh)) i = Ok i.
Proof.
  intros Hsh Hi Hlen. unfold make_view.
  pose proof (product_nonneg sh Hsh) as Hp.
  assert (Hz : 0 <= itemsize t * product sh) by (destruct t; simpl; lia).
  set (z := itemsize t * product sh) in *.
  assert (H1 : z * (Z.of_nat i + 1) <= z * n) by (apply Z.mul_le_mono_nonneg_l; lia).
  assert (H2 : 0 <= z * Z.of_nat i) by (apply Z.mul_nonneg_nonneg; lia).
  assert (H3 : z * (Z.of_nat i + 1) = z * Z.of_nat i + z) by lia.
  unfold slice_len, slice_index.
  destruct (z * (Z.of_nat i + 1) <? 0) eqn:E1; [apply Z.ltb_lt in E1; lia|].
  destruct (z * Z.of_nat i <? 0) eqn:E2; [apply Z.ltb_lt in E2; lia|].
  destruct (_ <? z) eqn:E3; [apply Z.ltb_lt in E3; lia|].
  rewrite forallb_nonneg by exact Hsh. reflexivity.
Qed.

Lemma range_lt n (i : nat) : i ∈ range n -> Z.of_nat i < n.
Proof.
  unfold range. intros H. apply elem_of_seq in H. lia.
Qed.

Lemma factory_nbytes sh t :
  sh <> [] -> in_range int64 (product sh) ->
  in_range int64 (product sh * itemsize t) ->
  number_mul (np_prod sh) (itemsize t) = NInt (itemsize t * product sh).
Proof.
  intros Hne H1 H2. destruct sh as [|d sh]; [congruence|].
  cbv [np_prod number_mul]. rewrite (wrap_in_range int64 (product (d :: sh))) by exact H1.
  rewrite wrap_in_range by exact H2. f_equal. lia.
Qed.

(** X13: the factory's channels start.  For a shape with at least one
    dimension and no negative one, a capacity that is not negative, no
    64-bit overflow in [nbytes * size], and an allocator that hands out
    a region at least as large as asked for, both [start] calls succeed:
    each port gets one view per slot, the semaphore holds [size]
    permits, the queue is empty and both drains stand at their loop
    heads. *)
Theorem factory_channel_starts alloc (src_name dst_name : string) sh t n len :
  sh <> [] -> Forall (fun d => 0 <= d) sh -> 0 <= n ->
  in_range int64 (product sh) ->
  in_range int64 (product sh * itemsize t) ->
  in_range int64 (itemsize t * product sh * n) ->
  alloc (itemsize t * product sh * n) = Ok len ->
  itemsize t * product sh * n <= len ->
  exists s0,
    started sh t n s0 /\
    permits s0 = n /\ tokens s0 = 0 /\ req s0 = 0 /\ ack s0 = 0 /\
    sender s0 = SenderIdle /\ receiver s0 = ReceiverIdle /\
    ack_drain s0 = Ack99 /\ req_drain s0 = Req236 /\
    CspSendPort._array (_src_port s0) = range n /\
    CspRecvPort._array (_dst_port s0) = range n /\
    CspSendPort._idx (_src_port s0) = 0 /\ CspRecvPort._idx (_dst_port s0) = 0.
Proof.
  intros Hne Hsh Hn H1 H2 H3 Halloc Hlen.
  assert (Hviews : make_views len sh t (NInt (itemsize t * product sh)) (range n)
                   = Ok (range n)).
  { apply make_views_all. intros i Hi. apply (make_view_fits len sh t n); auto.
    apply range_lt. exact Hi. }
  assert (Hinit : exists c, PyPyChannel.init alloc src_name dst_name sh t n = Ok c /\
            exists s0, start_ports c = Ok s0 /\
    permits s0 = n /\ tokens s0 = 0 /\ req s0 = 0 /\ ack s0 = 0 /\
    sender s0 = SenderIdle /\ receiver s0 = ReceiverIdle /\
    ack_drain s0 = Ack99 /\ req_drain s0 = Req236 /\
    CspSendPort._array (_src_port s0) = range n /\
    CspRecvPort._array (_dst_port s0) = range n /\
    CspSendPort._idx (_src_port s0) = 0 /\ CspRecvPort._idx (_dst_port s0) = 0).
  { unfold PyPyChannel.init. rewrite (factory_nbytes sh t Hne H1 H2).
    cbv [number_mul number_value]. rewrite wrap_in_range by exact H3.
    rewrite Halloc. eexists. split; [reflexivity|].
    unfold start_ports, start_src, start_dst, CspSendPort.start, CspRecvPort.start,
      CspSendPort.init, CspRecvPort.init. simpl. rewrite Hviews.
    unfold BoundedSemaphore_new. destruct (n <? 0) eqn:E; [apply Z.ltb_lt in E; lia|].
    simpl. rewrite Hviews. simpl. eexists. split; [reflexivity|].
    unfold permits, tokens. simpl. repeat split; reflexivity. }
  destruct Hinit as (c & Hc & s0 & Hs0 & Hrest).
  exists s0. split; [|exact Hrest].
  exists alloc, src_name, dst_name, c. split; assumption.
Qed.

Lemma make_views_TypeError len sh t nb l i :
  (forall j, j ∈ l -> make_view len sh t nb j = Ok j \/
                      make_view len sh t nb j = Raise TypeError) ->
  i ∈ l -> make_view len sh t nb i = Raise TypeError ->
  make_views len sh t nb l = Raise TypeError.
Proof.
  induction l as [|j l IH]; intros Hall Hin Hi; [inversion Hin|]. simpl.
  destruct (Hall j) as [Hj|Hj]; [left| |]; rewrite Hj; [|reflexivity].
  apply elem_of_cons in Hin as [->|Hin]; [congruence|].
  rewrite IH; [reflexivity| |exact Hin|exact Hi].
  intros k Hk. apply Hall. right. exact Hk.
Qed.

Lemma make_view_cases len sh t nb i :
  Forall (fun d => 0 <= d) sh ->
  make_view len sh t nb i = Ok i \/ make_view len sh t nb i = Raise TypeError.
Proof.
  intros Hsh. unfold make_view. destruct nb as [z|z]; [|auto].
  destruct (_ <? _); [auto|]. rewrite forallb_nonneg by exact Hsh. auto.
Qed.

Lemma make_views_small len sh t n :
  Forall (fun d => 0 <= d) sh -> 0 <= len < itemsize t * product sh * n ->
  make_views len sh t (NInt (itemsize t * product sh)) (range n) = Raise TypeError.
Proof.
  intros Hsh Hlen.
  pose proof (product_nonneg sh Hsh) as Hp.
  assert (Hz : 0 <= itemsize t * product sh) by (destruct t; simpl; lia).
  set (z := itemsize t * product sh) in *.
  assert (Hn : 0 < n) by nia.
  assert (Hz' : 0 < z) by nia.
  apply (make_views_TypeError _ _ _ _ _ (Z.to_nat (n - 1))).
  - intros j _. apply make_view_cases. exact Hsh.
  - unfold range. apply elem_of_seq. lia.
  - unfold make_view. fold z.
    replace (Z.of_nat (Z.to_nat (n - 1)) + 1) with n by lia.
    rewrite Z2Nat.id by lia.
    assert (H2 : 0 <= z * (n - 1)) by (apply Z.mul_nonneg_nonneg; lia).
    assert (H3 : z * n = z * (n - 1) + z) by lia.
    unfold slice_len, slice_index.
    destruct (z * n <? 0) eqn:E1; [apply Z.ltb_lt in E1; lia|].
    destruct (z * (n - 1) <? 0) eqn:E2; [apply Z.ltb_lt in E2; lia|].
    destruct (_ <? z) eqn:E3; [reflexivity|]. apply Z.ltb_ge in E3. lia.
Qed.

Lemma make_views_float len sh t z n :
  0 < n -> make_views len sh t (NFloat z) (range n) = Raise TypeError.
Proof.
  intros Hn. unfold range. destruct (Z.to_nat n) eqn:E; [lia|]. reflexivity.
Qed.

Lemma range_negative n : n < 0 -> range n = [].
Proof. intros H. unfold range. destruct n; try lia. reflexivity. Qed.

(** X14: how [start] fails.  With a negative [size] the send port's
    [start] raises [ValueError] in [BoundedSemaphore] (line 89) after
    [_array] was replaced by the empty list, while the receive port's
    [start] succeeds with a queue that never is full.  With a float
    [nbytes] (the factory's value for the shape [()]) and a positive
    [size], [start] raises [TypeError] in the slice of line 85 and
    leaves the port untouched; so it does when the region is shorter
    than [nbytes * size]. *)
Theorem start_failures len :
  (forall p, CspSendPort._size p < 0 ->
     CspSendPort.start len p = (Raise ValueError, CspSendPort.set_array [] p)) /\
  (forall p, CspRecvPort._size p < 0 ->
     CspRecvPort.start len p
     = (Ok (), CspRecvPort.set_thread (Some (CspRecvPort.next_thread p))
                 (CspRecvPort.set_queue
                    (Some (CspRecvQueue.new (CspRecvPort._size p)))
                    (CspRecvPort.set_array [] p))) /\
     forall items item,
       CspRecvQueue.put_nowait item
         (CspRecvQueue.with_queue items (CspRecvQueue.new (CspRecvPort._size p)))
       = Ok (CspRecvQueue.with_queue (items ++ [item])
               (CspRecvQueue.new (CspRecvPort._size p)))) /\
  (forall p z, 0 < CspSendPort._size p -> CspSendPort._nbytes p = NFloat z ->
     CspSendPort.start len p = (Raise TypeError, p)) /\
  (forall p z, 0 < CspRecvPort._size p -> CspRecvPort._nbytes p = NFloat z ->
     CspRecvPort.start len p = (Raise TypeError, p)) /\
  (forall p, Forall (fun d => 0 <= d) (CspSendPort._shape p) ->
     CspSendPort._nbytes p
     = NInt (itemsize (CspSendPort._dtype p) * product (CspSendPort._shape p)) ->
     0 <= len < itemsize (CspSendPort._dtype p) * product (CspSendPort._shape p)
                * CspSendPort._size p ->
     CspSendPort.start len p = (Raise TypeError, p)) /\
  (forall p, Forall (fun d => 0 <= d) (CspRecvPort._shape p) ->
     CspRecvPort._nbytes p
     = NInt (itemsize (CspRecvPort._dtype p) * product (CspRecvPort._shape p)) ->
     0 <= len < itemsize (CspRecvPort._dtype p) * product (CspRecvPort._shape p)
                * CspRecvPort._size p ->
     CspRecvPort.start len p = (Raise TypeError, p)).
Proof.
  repeat split.
  - intros p Hn. unfold CspSendPort.start. rewrite range_negative by exact Hn.
    simpl. unfold BoundedSemaphore_new. apply Z.ltb_lt in Hn. rewrite Hn. reflexivity.
  - unfold CspRecvPort.start. rewrite range_negative by assumption. reflexivity.
  - intros items item. unfold CspRecvQueue.put_nowait. simpl.
    destruct (0 <? CspRecvPort._size p) eqn:E; [apply Z.ltb_lt in E; lia|].
    reflexivity.
  - intros p z Hn Hz. unfold CspSendPort.start. rewrite Hz.
    rewrite make_views_float by exact Hn. reflexivity.
  - intros p z Hn Hz. unfold CspRecvPort.start. rewrite Hz.
    rewrite make_views_float by exact Hn. reflexivity.
  - intros p Hsh Hz Hlen. unfold CspSendPort.start. rewrite Hz.
    rewrite make_views_small by assumption. reflexivity.
  - intros p Hsh Hz Hlen. unfold CspRecvPort.start. rewrite Hz.
    rewrite make_views_small by assumption. reflexivity.
Qed.

(** ** Scenarios for the further properties *)


Lemma no_exception_on_started_channel_witness :
  Forall quiet (fst (run round_trip)).
Proof.
  apply (no_exception_on_started_channel [3] int32 2 demo_state
           (fst (run round_trip)) (snd (run round_trip)) demo_started).
  apply run_reachable. vm_compute. discriminate.
Defined.

Lemma ring_indices_witness :
  0 <= CspSendPort._idx (_src_port (snd (run round_trip))) < 2 /\
  0 <= CspRecvPort._idx (_dst_port (snd (run round_trip))) < 2 /\
  (sender (snd (run round_trip)) = SenderIdle ->
   CspSendPort._idx (_src_port (snd (run round_trip)))
   = Z.of_nat (length (sent (fst (run round_trip)))) mod 2) /\
  (receiver (snd (run round_trip)) = ReceiverIdle ->
   CspRecvPort._idx (_dst_port (snd (run round_trip)))
   = Z.of_nat (length (received (fst (run round_trip)))) mod 2) /\
  (sender (snd (run round_trip)) = SenderIdle ->
   receiver (snd (run round_trip)) = ReceiverIdle ->
   length (sent (fst (run round_trip))) = length (received (fst (run round_trip))) ->
   CspSendPort._idx (_src_port (snd (run round_trip)))
   = CspRecvPort._idx (_dst_port (snd (run round_trip)))).
Proof.
  apply (ring_indices [3] int32 2 demo_state (fst (run round_trip))
           (snd (run round_trip)) demo_started).
  - apply run_reachable. vm_compute. discriminate.
  - lia.
Defined.

Lemma send_recv_balance_witness :
  (length (received (fst (run round_trip))) <= length (sent (fst (run round_trip))))%nat /\
  Z.of_nat (length (sent (fst (run round_trip))))
    - Z.of_nat (length (received (fst (run round_trip))))
    <= 2 + returning (receiver (snd (run round_trip))) /\
  (length (sent (fst (run round_trip))) = length (received (fst (run round_trip))) ->
   req (snd (run round_trip)) = 0 /\ tokens (snd (run round_trip)) = 0 /\
   CspRecvPort.probe (_dst_port (snd (run round_trip))) = Ok false /\
   permits (snd (run round_trip)) + sender_holds (sender (snd (run round_trip)))
     + ack (snd (run round_trip))
     + ack_drain_holds (ack_drain (snd (run round_trip))) = 2).
Proof.
  apply (send_recv_balance [3] int32 2 demo_state (fst (run round_trip))
           (snd (run round_trip)) demo_started).
  apply run_reachable. vm_compute. discriminate.
Defined.

Lemma slot_exclusive_witness :
  CspSendPort._idx (_src_port (snd (run overlap)))
  <> CspRecvPort._idx (_dst_port (snd (run overlap))).
Proof.
  apply (slot_exclusive [3] int32 2 demo_state (fst (run overlap))
           (snd (run overlap)) (np_array int32 [4; 5; 6]) demo_started).
  - apply run_reachable. vm_compute. discriminate.
  - vm_compute. reflexivity.
  - left. vm_compute. reflexivity.
Defined.

Lemma received_tensor_typed_witness :
  shape (np_array int32 [1; 2; 3]) = [3] /\
  dtype_ (np_array int32 [1; 2; 3]) = int32 /\
  Forall (in_range int32) (data (np_array int32 [1; 2; 3])).
Proof.
  apply (received_tensor_typed [3] int32 2 demo_state (fst (run round_trip))
           (snd (run round_trip)) (np_array int32 [1; 2; 3]) demo_started).
  - apply run_reachable. vm_compute. discriminate.
  - left. vm_compute. repeat constructor.
Defined.

Lemma recv_probe_meaning_witness :
  exists a s', exec do_recv (snd (run announced))
               = Some ([Tau; Tau; Tau; Tau; Tau; RecvReturned a], s').
Proof.
  assert (Hr : reachable demo_state (fst (run announced)) (snd (run announced))).
  { apply run_reachable. vm_compute. discriminate. }
  assert (Hidle : receiver (snd (run announced)) = ReceiverIdle).
  { vm_compute. reflexivity. }
  apply (proj1 (proj2 (recv_probe_meaning [3] int32 2 demo_state (fst (run announced))
                         (snd (run announced)) demo_started Hr Hidle))).
  vm_compute. reflexivity.
Defined.

Lemma send_probe_meaning_witness :
  exec [CallSendProbe; Sender] (snd (run two_sent))
  = Some ([Tau; SendProbeReturned false], snd (run two_sent)) /\
  forall d, shape d = [3] ->
    exec [CallSend d; Sender; Sender] (snd (run two_sent)) = None.
Proof.
  assert (Hr : reachable demo_state (fst (run two_sent)) (snd (run two_sent))).
  { apply run_reachable. vm_compute. discriminate. }
  assert (Hidle : sender (snd (run two_sent)) = SenderIdle).
  { vm_compute. reflexivity. }
  apply (proj2 (proj2 (send_probe_meaning [3] int32 2 demo_state (fst (run two_sent))
                         (snd (run two_sent)) demo_started Hr Hidle))).
  vm_compute. reflexivity.
Defined.

Lemma traffic_after_drain_exit_witness :
  ack_drain (snd (run (joined ++ do_send (np_array int32 [1; 2; 3])))) = AckFinished /\
  permits (snd (run (joined ++ do_send (np_array int32 [1; 2; 3]))))
    + sender_holds (sender (snd (run (joined ++ do_send (np_array int32 [1; 2; 3])))))
    + Z.of_nat (length (sent [Tau; Tau; Tau; Tau; Tau;
                              SendReturned (np_array int32 [1; 2; 3])]))
  <= permits (snd (run joined)) + sender_holds (sender (snd (run joined))).
Proof.
  apply (proj1 (traffic_after_drain_exit (snd (run joined))
           (do_send (np_array int32 [1; 2; 3]))
           [Tau; Tau; Tau; Tau; Tau; SendReturned (np_array int32 [1; 2; 3])]
           (snd (run (joined ++ do_send (np_array int32 [1; 2; 3]))))
           ltac:(vm_compute; reflexivity))).
  vm_compute. reflexivity.
Defined.

Lemma traffic_after_join_witness :
  CspSendPort._done (_src_port (snd (run ([JoinSend] ++ do_send (np_array int32 [1; 2; 3])))))
  = true /\
  permits (snd (run ([JoinSend] ++ do_send (np_array int32 [1; 2; 3]))))
    + sender_holds (sender (snd (run ([JoinSend] ++ do_send (np_array int32 [1; 2; 3])))))
    + ack_drain_owes (ack_drain (snd (run ([JoinSend] ++ do_send (np_array int32 [1; 2; 3])))))
    + Z.of_nat (length (sent [Tau; Tau; Tau; Tau; Tau;
                              SendReturned (np_array int32 [1; 2; 3])]))
  <= permits (snd (run [JoinSend])) + sender_holds (sender (snd (run [JoinSend])))
     + ack_drain_owes (ack_drain (snd (run [JoinSend]))).
Proof.
  apply (proj1 (traffic_after_join (snd (run [JoinSend]))
           (do_send (np_array int32 [1; 2; 3]))
           [Tau; Tau; Tau; Tau; Tau; SendReturned (np_array int32 [1; 2; 3])]
           (snd (run ([JoinSend] ++ do_send (np_array int32 [1; 2; 3]))))
           ltac:(vm_compute; reflexivity))).
  vm_compute. reflexivity.
Defined.

Lemma factory_channel_starts_witness :
  exists s0,
    started [3] int32 2 s0 /\
    permits s0 = 2 /\ tokens s0 = 0 /\ req s0 = 0 /\ ack s0 = 0 /\
    sender s0 = SenderIdle /\ receiver s0 = ReceiverIdle /\
    ack_drain s0 = Ack99 /\ req_drain s0 = Req236 /\
    CspSendPort._array (_src_port s0) = range 2 /\
    CspRecvPort._array (_dst_port s0) = range 2 /\
    CspSendPort._idx (_src_port s0) = 0 /\ CspRecvPort._idx (_dst_port s0) = 0.
Proof.
  apply (factory_channel_starts py_alloc "src" "dst" [3] int32 2 24).
  - discriminate.
  - repeat constructor; lia.
  - lia.
  - vm_compute. split; [discriminate|reflexivity].
  - vm_compute. split; [discriminate|reflexivity].
  - vm_compute. split; [discriminate|reflexivity].
  - reflexivity.
  - vm_compute. discriminate.
Defined.

Lemma start_failures_witness :
  CspSendPort.start 24 negative_port
  = (Raise ValueError, CspSendPort.set_array [] negative_port).
Proof.
  apply (proj1 (start_failures 24) negative_port). vm_compute. reflexivity.
Defined.

Lemma get_outcome_witness :
  CspRecvQueue.maxsize {| CspRecvQueue.maxsize := 2; CspRecvQueue.queue := [8] |}
  = CspRecvQueue.maxsize (CspRecvQueue.new 2) /\
  exists contents rest,
    contents ∈ CspRecvQueue.queue (CspRecvQueue.new 2) :: [[]; [7; 8]] /\
    contents = 7 :: rest /\
    CspRecvQueue.queue {| CspRecvQueue.maxsize := 2; CspRecvQueue.queue := [8] |}
    = rest.
Proof.
  exact (get_outcome true None false ticking [[]; [7; 8]] (CspRecvQueue.new 2)).
Defined.

Lemma select_sound_witness :
  exists pre ch act post w0,
    demo_args = pre ++ (ch, act) :: post /\
    (forall c, c ∈ CspSelector.listed pre -> ready_at w0 c false) /\
    ready_at w0 ch true /\
    act (CspSelector._set_observer demo_args None w0)
    = (Ok 11, CspSelector._set_observer demo_args None
                (CspSelector._set_observer demo_args (Some (Changed 7)) demo_world)).
Proof.
  assert (E : CspSelector.select 7 [] demo_args demo_world
              = CspSelector.ExitAction (Ok 11)
                  (CspSelector._set_observer demo_args None
                     (CspSelector._set_observer demo_args (Some (Changed 7)) demo_world))).
  { vm_compute. reflexivity. }
  pose proof (select_sound 7 [] demo_args demo_world) as H.
  rewrite E in H. exact H.
Defined.
